(** * Verification of build_db.py: PDF case-file ingestion into SQLite.

    Shallow embedding of [src/build_db.py].  Python strings are modelled as
    Stdlib [string]s, one [ascii] per code point: the inputs are taken in
    ASCII, and the accented letters of the module's own messages are written
    as their Latin-1 code points ([String "243"] for U+00F3); the
    regular expressions of the module are modelled by small backtracking
    matchers that follow Python's [re] semantics for the exact patterns used. *)

From Stdlib Require Import Ascii String.
From stdpp Require Import base list gmap strings sorting.

Open Scope char_scope.
Open Scope string_scope.
Open Scope nat_scope.

(* ------------------------------------------------------------------ *)
(** ** Character classes (Python [str] semantics restricted to ASCII) *)

(** [str.isspace] / regex [\s] on ASCII: \t \n \v \f \r, \x1c-\x1f, space. *)
Definition is_space (c : ascii) : bool :=
  let n := nat_of_ascii c in
  ((9 <=? n) && (n <=? 13)) || ((28 <=? n) && (n <=? 32)).

(** Regex [\d] on ASCII. *)
Definition is_digit (c : ascii) : bool :=
  let n := nat_of_ascii c in (48 <=? n) && (n <=? 57).

(** Regex [\w] on ASCII: letters, digits and underscore. *)
Definition is_word (c : ascii) : bool :=
  let n := nat_of_ascii c in
  is_digit c || ((65 <=? n) && (n <=? 90)) || ((97 <=? n) && (n <=? 122))
  || (n =? 95).

Definition NL : ascii := "010".
Definition CR : ascii := "013".

Definition SQ : ascii := "039".
Definition DQ : ascii := "034".
Definition BS : ascii := "092".

Definition chr_eqb (a b : ascii) : bool := Ascii.eqb a b.

(** [str.splitlines] line boundaries among ASCII characters:
    \n, \r, \v, \f, \x1c, \x1d, \x1e (\r\n counts as one boundary). *)
Definition is_line_boundary (c : ascii) : bool :=
  let n := nat_of_ascii c in
  ((10 <=? n) && (n <=? 13)) || ((28 <=? n) && (n <=? 30)).

(** [str.strip()] *)
Definition lstrip (s : list ascii) : list ascii :=
  let fix go s := match s with
                  | [] => []
                  | c :: s' => if is_space c then go s' else s
                  end in go s.

Definition strip (s : list ascii) : list ascii := rev (lstrip (rev (lstrip s))).

(** [str.splitlines()] *)
Fixpoint splitlines_go (cur : list ascii) (s : list ascii) : list (list ascii) :=
  match s with
  | [] => match cur with [] => [] | _ => [rev cur] end
  | c :: s' =>
      if chr_eqb c CR then
        match s' with
        | d :: s'' => if chr_eqb d NL then rev cur :: splitlines_go [] s''
                      else rev cur :: splitlines_go [] s'
        | [] => [rev cur]
        end
      else if is_line_boundary c then rev cur :: splitlines_go [] s'
      else splitlines_go (c :: cur) s'
  end.

Definition splitlines (s : list ascii) : list (list ascii) := splitlines_go [] s.

(* ------------------------------------------------------------------ *)
(** ** [_derive_title] *)

Definition TITLE_PLACEHOLDER : string := ("Processo sem t" ++ String "237" "tulo")%string.

(** The [for line in text.splitlines()] loop. *)
Fixpoint derive_title_loop (lines : list (list ascii)) : string :=
  match lines with
  | [] => TITLE_PLACEHOLDER
  | line :: rest =>
      let cleaned := strip line in
      match cleaned with
      | [] => derive_title_loop rest
      | _ => string_of_list_ascii (firstn 200 cleaned)
      end
  end.

Definition _derive_title (text : string) : string :=
  derive_title_loop (splitlines (list_ascii_of_string text)).

(* ------------------------------------------------------------------ *)
(** ** Exceptions and fallible results *)

(** The exception classes a call can raise.  [PdfTextExtractionError] is a
    subclass of [BuildDbError]; [OSError] and [DatabaseError] stand for the
    standard-library exceptions raised by file reads and by [sqlite3]. *)
Inductive exc :=
| BuildDbError (msg : string)
| PdfTextExtractionError (msg : string)
| OSError (msg : string)
| DatabaseError (msg : string).

(** [isinstance(e, BuildDbError)], the class caught by the entry point. *)
Definition is_build_db_error (e : exc) : bool :=
  match e with BuildDbError _ | PdfTextExtractionError _ => true | _ => false end.

(** The exact class of an exception, [type(e)]. *)
Inductive exc_kind := KBuildDbError | KPdfTextExtractionError | KOSError | KDatabaseError.

Definition kind_of (e : exc) : exc_kind :=
  match e with
  | BuildDbError _ => KBuildDbError
  | PdfTextExtractionError _ => KPdfTextExtractionError
  | OSError _ => KOSError
  | DatabaseError _ => KDatabaseError
  end.

Inductive res (A : Type) := Ok (a : A) | Raise (e : exc).
Arguments Ok {A} _.
Arguments Raise {A} _.

(* ------------------------------------------------------------------ *)
(** ** [PROCESS_NUMBER_RE] and [_parse_case_number] *)

(** Items of [\d{7}-\d{2}\.\d{4}\.\d\.\d{2}\.\d{4}]. *)
Inductive pat_item := PDigit | PLit (c : ascii).

Definition digits (n : nat) : list pat_item := repeat PDigit n.

Definition PROCESS_NUMBER_ITEMS : list pat_item :=
  digits 7 ++ [PLit "-"] ++ digits 2 ++ [PLit "."] ++ digits 4 ++ [PLit "."]
  ++ digits 1 ++ [PLit "."] ++ digits 2 ++ [PLit "."] ++ digits 4.

(** Match a sequence of fixed-width items at the head of [s]. *)
Fixpoint match_items (p : list pat_item) (s : list ascii)
  : option (list ascii * list ascii) :=
  match p with
  | [] => Some ([], s)
  | it :: p' =>
      match s with
      | [] => None
      | c :: s' =>
          let ok := match it with PDigit => is_digit c | PLit l => chr_eqb c l end in
          if ok then
            match match_items p' s' with
            | Some (m, r) => Some (c :: m, r)
            | None => None
            end
          else None
      end
  end.

Definition is_word_opt (o : option ascii) : bool :=
  match o with Some c => is_word c | None => false end.

(** [\b] between the character before the position and the one after it. *)
Definition word_boundary (before after : option ascii) : bool :=
  negb (Bool.eqb (is_word_opt before) (is_word_opt after)).

(** [PROCESS_NUMBER_RE] tried at one position: [\b ITEMS \b]. *)
Definition process_number_here (before : option ascii) (s : list ascii)
  : option (list ascii) :=
  if word_boundary before (head s) then
    match match_items PROCESS_NUMBER_ITEMS s with
    | Some (m, r) => if word_boundary (last m) (head r) then Some m else None
    | None => None
    end
  else None.

(** [PROCESS_NUMBER_RE.search]: leftmost position where the pattern matches. *)
Fixpoint search_go (before : option ascii) (s : list ascii) : option (list ascii) :=
  match process_number_here before s with
  | Some m => Some m
  | None => match s with [] => None | c :: s' => search_go (Some c) s' end
  end.

Definition CASE_NUMBER_NOT_FOUND : string :=
  ("N" ++ String "227" "o foi poss" ++ String "237" "vel identificar o n" ++ String "250" "mero do processo no documento.")%string.

Definition _parse_case_number (text : string) : res string :=
  match search_go None (list_ascii_of_string text) with
  | None => Raise (BuildDbError CASE_NUMBER_NOT_FOUND)
  | Some m => Ok (string_of_list_ascii m)
  end.
(* ------------------------------------------------------------------ *)
(** ** [MOVEMENT_RE], the fallback [date_re] and [_parse_events] *)

(** Length of the longest prefix of [s] whose characters satisfy [cls]. *)
Fixpoint run_length (cls : ascii -> bool) (s : list ascii) : nat :=
  match s with
  | c :: s' => if cls c then S (run_length cls s') else 0
  | [] => 0
  end.

(** Backtracking over the repetition count of a greedy quantifier: the counts
    [c], [c-1], ..., [min] are tried in turn, each handing the consumed part
    and the remainder to the continuation [k]; the first success wins. *)
Fixpoint backtrack {X} (k : list ascii -> list ascii -> option X)
    (s : list ascii) (min c : nat) : option X :=
  match (if min <=? c then k (take c s) (drop c s) else None) with
  | Some x => Some x
  | None => match c with 0 => None | S c' => backtrack k s min c' end
  end.

(** A greedy [cls{min,}] followed by the continuation [k]. *)
Definition greedy {X} (cls : ascii -> bool) (min : nat)
    (k : list ascii -> list ascii -> option X) (s : list ascii) : option X :=
  backtrack k s min (run_length cls s).

(** Regex [.]: any character but a newline. *)
Definition not_nl (c : ascii) : bool := negb (chr_eqb c NL).

(** Regex [$] under [re.MULTILINE]: at the end or before a newline. *)
Definition at_eol (r : list ascii) : bool :=
  match r with [] => true | c :: _ => chr_eqb c NL end.

(** [\d{2}/\d{2}/\d{4}] *)
Definition DATE_ITEMS : list pat_item :=
  digits 2 ++ [PLit "/"] ++ digits 2 ++ [PLit "/"] ++ digits 4.

Definition is_dash (c : ascii) : bool := chr_eqb c "-".

(** [MOVEMENT_RE] = [^(?P<date>\d{2}/\d{2}/\d{4})\s+-\s+(?P<description>.+)$]
    tried at a position (the [^] test is done by the scanner); returns the
    groups [date] and [description] and the text after the match. *)
Definition movement_here (s : list ascii)
  : option ((list ascii * list ascii) * list ascii) :=
  match match_items DATE_ITEMS s with
  | None => None
  | Some (date, r1) =>
      greedy is_space 1 (fun _ r2 =>
        match r2 with
        | c :: r3 =>
            if is_dash c then
              greedy is_space 1 (fun _ r4 =>
                greedy not_nl 1 (fun desc r5 =>
                  if at_eol r5 then Some ((date, desc), r5) else None) r4) r3
            else None
        | [] => None
        end) r1
  end.

(** The fallback [date_re]: the date group, [\s+], a group of [.] repeated
    zero or more times, then [$]; tried at a position. *)
Definition fallback_here (s : list ascii)
  : option ((list ascii * list ascii) * list ascii) :=
  match match_items DATE_ITEMS s with
  | None => None
  | Some (date, r1) =>
      greedy is_space 1 (fun _ r2 =>
        greedy not_nl 0 (fun rest r3 =>
          if at_eol r3 then Some ((date, rest), r3) else None) r2) r1
  end.

(** [pattern.finditer(text)] for a pattern starting with [^] under
    [re.MULTILINE]: scan left to right, try the pattern where a line starts
    ([bol]), continue after each match.  [fuel] bounds the scan; the text is
    shorter than [S (length s)] steps. *)
Fixpoint finditer {X} (m : list ascii -> option (X * list ascii))
    (fuel : nat) (bol : bool) (s : list ascii) : list X :=
  match fuel with
  | 0 => []
  | S fuel' =>
      match (if bol then m s else None) with
      | Some (x, rest) =>
          let matched := take (length s - length rest) s in
          let bol' := match last matched with Some c => chr_eqb c NL | None => bol end in
          x :: finditer m fuel' bol' rest
      | None =>
          match s with
          | [] => []
          | c :: s' => finditer m fuel' (chr_eqb c NL) s'
          end
      end
  end.

Definition finditer_all {X} (m : list ascii -> option (X * list ascii))
    (s : list ascii) : list X :=
  finditer m (S (length s)) true s.

Definition event : Type := (string * string)%type.

(** The tuple built for each match: [(date, description.strip())]. *)
Definition to_event (g : list ascii * list ascii) : event :=
  (string_of_list_ascii g.1, string_of_list_ascii (strip g.2)).

Definition _parse_events (text : string) : list event :=
  let s := list_ascii_of_string text in
  let events := map to_event (finditer_all movement_here s) in
  match events with
  | _ :: _ => events
  | [] => map to_event (finditer_all fallback_here s)
  end.

(** The events as the specification reads them, line by line: the text is cut
    at each line feed and each pattern is tried on one line at a time, so no
    match reaches into the next line.  Used only to compare with
    [_parse_events]. *)
Fixpoint split_nl_go (cur : list ascii) (s : list ascii) : list (list ascii) :=
  match s with
  | [] => [rev cur]
  | c :: s' => if chr_eqb c NL then rev cur :: split_nl_go [] s' else split_nl_go (c :: cur) s'
  end.

Definition line_match {X} (m : list ascii -> option (X * list ascii)) (line : list ascii)
  : list X :=
  match m line with Some (x, _) => [x] | None => [] end.

Definition spec_line_events (text : string) : list event :=
  let lines := split_nl_go [] (list_ascii_of_string text) in
  match flat_map (line_match movement_here) lines with
  | [] => map to_event (flat_map (line_match fallback_here) lines)
  | primary => map to_event primary
  end.
(* ------------------------------------------------------------------ *)
(** ** [extract_text_from_pdf] *)

(** What running [pdftotext <pdf> <destination>] does, as observed by
    [subprocess.run]: the executable is not found ([FileNotFoundError]), or
    it runs, exits with [code], writes [stderr], and may have written the
    destination file (with the already decoded text). *)
Inductive tool_outcome :=
| ToolMissing
| ToolExit (code : Z) (stderr : string) (written : option string).

(** Lower-case hexadecimal digit. *)
Definition hex_digit (n : nat) : ascii :=
  if n <? 10 then ascii_of_nat (48 + n) else ascii_of_nat (87 + n).

(** [repr(b)] of a [bytes] value: [b'...'], or [b"..."] when the bytes
    contain a single quote and no double quote. *)
Definition bytes_repr (s : string) : string :=
  let l := list_ascii_of_string s in
  let q : ascii := if existsb (fun c => chr_eqb c SQ) l
                      && negb (existsb (fun c => chr_eqb c DQ) l)
                   then DQ else SQ in
  let esc (c : ascii) : list ascii :=
    let n := nat_of_ascii c in
    if chr_eqb c q || chr_eqb c BS then [BS; c]
    else if n =? 9 then [BS; "t"%char]
    else if n =? 10 then [BS; "n"%char]
    else if n =? 13 then [BS; "r"%char]
    else if (n <? 32) || (127 <=? n) then [BS; "x"%char; hex_digit (n / 16); hex_digit (n mod 16)]
    else [c] in
  string_of_list_ascii ("b"%char :: q :: flat_map esc l ++ [q]).

Definition PDFTOTEXT_MISSING : string :=
  ("O utilit" ++ String "225" "rio 'pdftotext' n" ++ String "227" "o est" ++ String "225" " dispon" ++ String "237" "vel no sistema.")%string.

(** [f"Falha ao converter '{pdf_path.name}' para texto: {exc.stderr!r}"] *)
Definition conversion_failed (pdf_name stderr : string) : string :=
  "Falha ao converter '" ++ pdf_name ++ "' para texto: " ++ bytes_repr stderr.

Definition FILE_NOT_FOUND : string := "No such file or directory".

(** [extract_text_from_pdf(pdf_path, destination)] over the directory holding
    the scratch file ([scratch] maps file names to their text).  Returns the
    outcome and the directory afterwards. *)
Definition extract_text_from_pdf (tool : tool_outcome) (pdf_name dest : string)
    (scratch : gmap string string) : res string * gmap string string :=
  match tool with
  | ToolMissing => (Raise (PdfTextExtractionError PDFTOTEXT_MISSING), scratch)
  | ToolExit code err written =>
      let scratch1 := match written with
                      | Some t => <[dest:=t]> scratch
                      | None => scratch
                      end in
      if Z.eqb code 0 then
        (* destination.read_text(...); destination.unlink(missing_ok=True) *)
        match scratch1 !! dest with
        | None => (Raise (OSError FILE_NOT_FOUND), scratch1)
        | Some text => (Ok text, delete dest scratch1)
        end
      else (Raise (PdfTextExtractionError (conversion_failed pdf_name err)), scratch1)
  end.
(* ------------------------------------------------------------------ *)
(** ** The SQLite store ([ensure_schema]'s tables) *)

Record process_row := {
  p_id : Z; p_number : string; p_title : string; p_pdf_path : string;
  p_created_at : string }.

Record event_row := {
  ev_id : Z; ev_process_id : Z; ev_event_date : string; ev_description : string }.

Record document_row := {
  doc_id : Z; doc_process_id : Z; doc_file_name : string; doc_content : string;
  doc_created_at : string }.

(** Tables in rowid order, with the [sqlite_sequence] counters of their
    [AUTOINCREMENT] keys. *)
Record db := {
  processes : list process_row;
  events : list event_row;
  documents : list document_row;
  seq_processes : Z; seq_events : Z; seq_documents : Z }.

(** [AUTOINCREMENT]: one more than the largest of the sequence counter and
    every rowid in the table. *)
Definition next_rowid (seq : Z) (ids : list Z) : Z :=
  1 + fold_right Z.max seq ids.

Definition set_processes (d : db) (ps : list process_row) (sp : Z) : db :=
  {| processes := ps; events := events d; documents := documents d;
     seq_processes := sp; seq_events := seq_events d; seq_documents := seq_documents d |}.

Definition set_events (d : db) (es : list event_row) (se : Z) : db :=
  {| processes := processes d; events := es; documents := documents d;
     seq_processes := seq_processes d; seq_events := se; seq_documents := seq_documents d |}.

Definition set_documents (d : db) (ds : list document_row) (sd : Z) : db :=
  {| processes := processes d; events := events d; documents := ds;
     seq_processes := seq_processes d; seq_events := seq_events d; seq_documents := sd |}.

(** [DO UPDATE SET title = excluded.title, pdf_path = excluded.pdf_path] *)
Definition update_title_path (title path : string) (r : process_row) : process_row :=
  {| p_id := p_id r; p_number := p_number r; p_title := title; p_pdf_path := path;
     p_created_at := p_created_at r |}.

(** [INSERT INTO processes (number, title, pdf_path, created_at) VALUES (...)
     ON CONFLICT(number) DO UPDATE SET title = ..., pdf_path = ...]: the
    AUTOINCREMENT rowid is drawn (and recorded in [sqlite_sequence]) before
    the uniqueness conflict is found, so the sequence advances on both
    branches. *)
Definition upsert_process (number title path created : string) (d : db) : db :=
  let i := next_rowid (seq_processes d) (map p_id (processes d)) in
  if existsb (fun r => String.eqb (p_number r) number) (processes d) then
    set_processes d
      (map (fun r => if String.eqb (p_number r) number
                     then update_title_path title path r else r) (processes d))
      i
  else
    set_processes d
      (processes d ++ [{| p_id := i; p_number := number; p_title := title;
                          p_pdf_path := path; p_created_at := created |}]) i.

(** [SELECT id FROM processes WHERE number = ?] then [fetchone()]. *)
Definition select_process_id (number : string) (d : db) : option Z :=
  p_id <$> List.find (fun r => String.eqb (p_number r) number) (processes d).

(** [DELETE FROM events WHERE process_id = ?] *)
Definition delete_events (pid : Z) (d : db) : db :=
  set_events d (List.filter (fun e => negb (Z.eqb (ev_process_id e) pid)) (events d)) (seq_events d).

(** [DELETE FROM documents WHERE process_id = ?] *)
Definition delete_documents (pid : Z) (d : db) : db :=
  set_documents d (List.filter (fun x => negb (Z.eqb (doc_process_id x) pid)) (documents d))
    (seq_documents d).

(** One [INSERT INTO events (process_id, event_date, description)]. *)
Definition insert_event (row : Z * string * string) (d : db) : db :=
  let '(pid, date, desc) := row in
  let i := next_rowid (seq_events d) (map ev_id (events d)) in
  set_events d (events d ++ [{| ev_id := i; ev_process_id := pid; ev_event_date := date;
                                ev_description := desc |}]) i.

(** [cursor.executemany(...)] over the rows, in order. *)
Definition insert_events (rows : list (Z * string * string)) (d : db) : db :=
  fold_left (fun d r => insert_event r d) rows d.

(** [INSERT INTO documents (process_id, file_name, content, created_at)] *)
Definition insert_document (pid : Z) (name content created : string) (d : db) : db :=
  let i := next_rowid (seq_documents d) (map doc_id (documents d)) in
  set_documents d (documents d ++ [{| doc_id := i; doc_process_id := pid;
     doc_file_name := name; doc_content := content; doc_created_at := created |}]) i.

(* ------------------------------------------------------------------ *)
(** ** The [sqlite3] connection and [persist_import_results] *)

(** A connection in the module's default (deferred) transaction mode: the
    data-changing statements go to [pending]; [commit()] makes [pending] the
    [committed] store; closing the connection without committing keeps the
    [committed] store.  [clock] counts the calls to [dt.datetime.utcnow()]. *)
Record conn := { committed : db; pending : db; clock : nat }.

Definition M (A : Type) : Type := conn -> res A * conn.

Global Instance M_ret : MRet M := fun A a c => (Ok a, c).
Global Instance M_bind : MBind M := fun A B k m c =>
  match m c with
  | (Ok a, c') => k a c'
  | (Raise e, c') => (Raise e, c')
  end.

Definition raise {A} (e : exc) : M A := fun c => (Raise e, c).

(** The statements of one [persist_import_results] iteration, in order.  A
    [sqlite3] error raised by one of them is modelled as a fault at that
    statement, chosen by the caller. *)
Inductive stage :=
| SUpsert | SCommitUpsert | SSelect | SDeleteEvents | SDeleteDocuments
| SInsertEvents | SInsertDocument | SCommit.

Global Instance stage_eq_dec : EqDecision stage.
Proof. solve_decision. Defined.

Definition DB_FAILURE : exc := DatabaseError "database error".

(** [cursor.execute(...)] of a statement changing the store. *)
Definition exec (fault : option stage) (st : stage) (f : db -> db) : M unit :=
  fun c => if decide (fault = Some st) then (Raise DB_FAILURE, c)
           else (Ok tt, {| committed := committed c; pending := f (pending c); clock := clock c |}).

(** [connection.commit()] *)
Definition commit (fault : option stage) (st : stage) : M unit :=
  fun c => if decide (fault = Some st) then (Raise DB_FAILURE, c)
           else (Ok tt, {| committed := pending c; pending := pending c; clock := clock c |}).

(** A query reading the store (within the open transaction). *)
Definition query {A} (fault : option stage) (st : stage) (q : db -> A) : M A :=
  fun c => if decide (fault = Some st) then (Raise DB_FAILURE, c) else (Ok (q (pending c)), c).

Section Persist.

(** [dt.datetime.utcnow().isoformat()] at the [n]-th call. *)
Variable utcnow_iso : nat -> string.

Definition utcnow : M string :=
  fun c => (Ok (utcnow_iso (clock c)),
            {| committed := committed c; pending := pending c; clock := S (clock c) |}).

(** [PdfImportResult]; [stored_path] is [ir_stored_dir / ir_stored_name]. *)
Record import_result := {
  ir_process_number : string;
  ir_title : string;
  ir_events : list event;
  ir_document_text : string;
  ir_stored_dir : string;
  ir_stored_name : string }.

Definition path_str (dir name : string) : string := dir ++ "/" ++ name.

Definition PROCESS_ID_MISSING : string := ("Falha ao obter o ID do processo rec" ++ String "233" "m-criado.")%string.

Definition _get_process_id (fault : option stage) (number title pdf_path : string) : M Z :=
  t ← utcnow;
  exec fault SUpsert (upsert_process number title pdf_path t);;
  commit fault SCommitUpsert;;
  row ← query fault SSelect (select_process_id number);
  match row with
  | None => raise (BuildDbError PROCESS_ID_MISSING)
  | Some i => mret i
  end.

(** One iteration of the loop of [persist_import_results]. *)
Definition persist_one (fault : option stage) (r : import_result) : M unit :=
  pid ← _get_process_id fault (ir_process_number r) (ir_title r)
          (path_str (ir_stored_dir r) (ir_stored_name r));
  exec fault SDeleteEvents (delete_events pid);;
  exec fault SDeleteDocuments (delete_documents pid);;
  let event_rows := map (fun ev => (pid, ev.1, ev.2)) (ir_events r) in
  match event_rows with
  | [] => mret tt
  | _ :: _ => exec fault SInsertEvents (insert_events event_rows)
  end;;
  t ← utcnow;
  exec fault SInsertDocument (insert_document pid (ir_stored_name r) (ir_document_text r) t);;
  commit fault SCommit.

(** [persist_import_results(connection, results)]: each result comes with
    the statement at which the database fails while persisting it, if any. *)
Fixpoint persist_import_results (results : list (import_result * option stage)) : M unit :=
  match results with
  | [] => mret tt
  | (r, fault) :: rest => persist_one fault r;; persist_import_results rest
  end.

End Persist.

(* ------------------------------------------------------------------ *)
(** ** [_iter_pdf_files] *)

(** A directory entry, as seen by [Path.is_file()] (which follows links). *)
Inductive entry := EFile (bytes : string) | EDir | EOther.

Definition is_file (e : entry) : bool := match e with EFile _ => true | _ => false end.

(** [fnmatch]-style matching of one path component, as [pathlib]'s glob does
    on POSIX (case-sensitive): [*] matches any run of characters. *)
Fixpoint glob_match (pat name : list ascii) : bool :=
  match pat with
  | [] => match name with [] => true | _ => false end
  | p :: pat' =>
      if chr_eqb p "*" then
        (fix star (n : list ascii) : bool :=
           glob_match pat' n || match n with [] => false | _ :: n' => star n' end) name
      else match name with
           | [] => false
           | c :: name' => chr_eqb p c && glob_match pat' name'
           end
  end.

Definition PDF_GLOB : string := "*.pdf".

(** [sorted(directory.glob("*.pdf"))] then the [path.is_file()] filter; paths
    of one directory compare as their names. *)
Definition _iter_pdf_files (directory : gmap string entry) : list string :=
  List.filter (fun n => match directory !! n with Some e => is_file e | None => false end)
    (merge_sort String.le
       (List.filter (fun n => glob_match (list_ascii_of_string PDF_GLOB) (list_ascii_of_string n))
          (map fst (map_to_list directory)))).

(* ------------------------------------------------------------------ *)
(** ** [process_pdf], [load_pdf_results] and [build_database] *)

(** [PurePath.stem]: the name without its last suffix. *)
Fixpoint last_dot (s : list ascii) (i : nat) (acc : option nat) : option nat :=
  match s with
  | [] => acc
  | c :: s' => last_dot s' (S i) (if chr_eqb c "." then Some i else acc)
  end.

Definition stem (name : string) : string :=
  let l := list_ascii_of_string name in
  match last_dot l 0 None with
  | Some i => if (0 <? i) && (i <? length l - 1) then string_of_list_ascii (take i l) else name
  | None => name
  end.

(** The environment of one run: what [pdftotext] does on a file's bytes,
    whether the source directory is the storage directory itself (so
    [pdf_path.resolve() == target_path.resolve()]), the string of the storage
    directory, the database failures of the [i]-th persisted result and the
    clock. *)
Record env := {
  tool : string -> tool_outcome;
  source_is_storage : bool;
  storage_dir_str : string;
  db_fault : nat -> option stage;
  utcnow_at : nat -> string }.

(** The files touched by a run: the source directory, the storage directory
    and the scratch directory. *)
Record fs := {
  source : gmap string entry;
  storage : gmap string string;
  scratch : gmap string string }.

Definition with_storage (w : fs) (st : gmap string string) : fs :=
  {| source := source w; storage := st; scratch := scratch w |}.

Definition with_scratch (w : fs) (sc : gmap string string) : fs :=
  {| source := source w; storage := storage w; scratch := sc |}.

(** The bytes of a source file. *)
Definition src_bytes (w : fs) (name : string) : string :=
  match source w !! name with Some (EFile b) => b | _ => EmptyString end.

Definition process_pdf (E : env) (name : string) (w : fs) : res import_result * fs :=
  let bytes := src_bytes w name in
  (* shutil.copy2(pdf_path, target_path) unless it is the same file *)
  let w1 := if source_is_storage E then w else with_storage w (<[name:=bytes]> (storage w)) in
  let stored := if source_is_storage E then bytes
                else match storage w1 !! name with Some b => b | None => bytes end in
  let '(r, sc) := extract_text_from_pdf (tool E stored) name (stem name ++ ".txt")
                    (scratch w1) in
  let w2 := with_scratch w1 sc in
  match r with
  | Raise e => (Raise e, w2)
  | Ok text =>
      match _parse_case_number text with
      | Raise e => (Raise e, w2)
      | Ok number =>
          (Ok {| ir_process_number := number; ir_title := _derive_title text;
                 ir_events := _parse_events text; ir_document_text := text;
                 ir_stored_dir := storage_dir_str E; ir_stored_name := name |}, w2)
      end
  end.

(** The loop of [load_pdf_results] over the given paths. *)
Fixpoint load_loop (E : env) (paths : list string) (w : fs) : res (list import_result) * fs :=
  match paths with
  | [] => (Ok [], w)
  | p :: rest =>
      match process_pdf E p w with
      | (Raise e, w') => (Raise e, w')
      | (Ok r, w') =>
          match load_loop E rest w' with
          | (Ok rs, w'') => (Ok (r :: rs), w'')
          | (Raise e, w'') => (Raise e, w'')
          end
      end
  end.

Definition load_pdf_results (E : env) (w : fs) : res (list import_result) * fs :=
  load_loop E (_iter_pdf_files (source w)) w.

Definition empty_db : db :=
  {| processes := []; events := []; documents := [];
     seq_processes := 0; seq_events := 0; seq_documents := 0 |}.

(** [sqlite3.connect] then [ensure_schema]: a missing database file is created
    with empty tables; an existing one keeps its rows. *)
Definition open_store (store : option db) : db :=
  match store with Some d => d | None => empty_db end.

Fixpoint with_faults (E : env) (i : nat) (rs : list import_result)
  : list (import_result * option stage) :=
  match rs with
  | [] => []
  | r :: rs' => (r, db_fault E i) :: with_faults E (S i) rs'
  end.

(** [build_database(source_dir, database_path)]: the outcome, the files and
    the database file afterwards ([None]: no database file). *)
Definition build_database (E : env) (w : fs) (store : option db)
  : res unit * fs * option db :=
  match load_pdf_results E w with
  | (Raise e, w') => (Raise e, w', store)
  | (Ok results, w') =>
      let d := open_store store in
      let c0 := {| committed := d; pending := d; clock := 0 |} in
      let '(r, c1) := persist_import_results (utcnow_at E) (with_faults E 0 results) c0 in
      (* connection.close(): uncommitted changes are dropped *)
      (r, w', Some (committed c1))
  end.

(* ------------------------------------------------------------------ *)
(** ** [main] and the script's entry point *)

(** [f"O diretório de origem '{source_dir}' é inválido."] *)
Definition INVALID_SOURCE (source_dir : string) : string :=
  ("O diret" ++ String "243" "rio de origem '")%string ++ source_dir ++ ("' " ++ String "233" " inv" ++ String "225" "lido.")%string.

(** [main(argv)] after [parse_args]: [source_dir] is [str(args.source)] and
    [source_kind] what is at that path ([None]: nothing, so [exists()] is
    false; [Some EDir]: a directory, so [is_dir()] is true). *)
Definition main (E : env) (source_dir : string) (source_kind : option entry) (w : fs)
    (store : option db) : res unit * fs * option db :=
  match source_kind with
  | Some EDir => build_database E w store
  | _ => (Raise (BuildDbError (INVALID_SOURCE source_dir)), w, store)
  end.

(** [str(error)]: the exception's single argument. *)
Definition exc_message (e : exc) : string :=
  match e with
  | BuildDbError m | PdfTextExtractionError m | OSError m | DatabaseError m => m
  end.

(** [json.dumps] of a [str] (default [ensure_ascii=True]): the backslash and
    the double quote are escaped with a backslash, \b \f \n \r \t by their short escapes, every
    other character outside [' '..'~'] as [\u00XX] in lower-case hex. *)
Definition json_escape_char (c : ascii) : list ascii :=
  let n := nat_of_ascii c in
  if chr_eqb c BS then [BS; BS]
  else if chr_eqb c DQ then [BS; DQ]
  else if n =? 8 then [BS; "b"%char]
  else if n =? 12 then [BS; "f"%char]
  else if n =? 10 then [BS; "n"%char]
  else if n =? 13 then [BS; "r"%char]
  else if n =? 9 then [BS; "t"%char]
  else if (32 <=? n) && (n <=? 126) then [c]
  else [BS; "u"%char; "0"%char; "0"%char; hex_digit (n / 16); hex_digit (n mod 16)].

Definition json_dumps_str (s : list ascii) : list ascii :=
  DQ :: flat_map json_escape_char s ++ [DQ].

(** [json.dumps({"error": message})] with the default separators. *)
Definition error_payload (message : string) : list ascii :=
  (["{"%char; DQ] ++ list_ascii_of_string "error" ++ [DQ; ":"%char; " "%char]
   ++ json_dumps_str (list_ascii_of_string message) ++ ["}"%char])%list.

(** What [python build_db.py] ends with: exit status and standard output,
    or an exception that escapes the script. *)
Inductive cli_outcome :=
| CliExit (status : Z) (stdout : list ascii)
| CliUncaught (e : exc).

(** [if __name__ == "__main__"]: [main()]; a [BuildDbError] (or subclass) is
    printed as [json.dumps({"error": str(error)})] and the script exits with
    status 1; any other exception propagates. *)
Definition cli (E : env) (source_dir : string) (source_kind : option entry) (w : fs)
    (store : option db) : cli_outcome * fs * option db :=
  match main E source_dir source_kind w store with
  | (Ok _, w', st) => (CliExit 0 [], w', st)
  | (Raise e, w', st) =>
      if is_build_db_error e
      then (CliExit 1 (error_payload (exc_message e) ++ [NL])%list, w', st)
      else (CliUncaught e, w', st)
  end.

(** Reading a JSON document back (RFC 8259), for the round trip of the
    entry point's output: the hexadecimal value of a digit, the body of a
    string up to its closing quote, with the escapes decoded (characters are
    code points below 256 here). *)
Definition hex_val (c : ascii) : option nat :=
  let n := nat_of_ascii c in
  if (48 <=? n) && (n <=? 57) then Some (n - 48)
  else if (97 <=? n) && (n <=? 102) then Some (n - 87)
  else if (65 <=? n) && (n <=? 70) then Some (n - 55)
  else None.

Definition hex4 (a b c d : ascii) : option nat :=
  match hex_val a, hex_val b, hex_val c, hex_val d with
  | Some x, Some y, Some z, Some t => Some (((x * 16 + y) * 16 + z) * 16 + t)
  | _, _, _, _ => None
  end.

Definition short_escape (e : ascii) : option ascii :=
  if chr_eqb e DQ then Some DQ
  else if chr_eqb e BS then Some BS
  else if chr_eqb e "/" then Some "/"%char
  else if chr_eqb e "b" then Some (ascii_of_nat 8)
  else if chr_eqb e "f" then Some (ascii_of_nat 12)
  else if chr_eqb e "n" then Some NL
  else if chr_eqb e "r" then Some CR
  else if chr_eqb e "t" then Some (ascii_of_nat 9)
  else None.

Fixpoint json_read_string (s : list ascii) : option (list ascii * list ascii) :=
  match s with
  | [] => None
  | c :: s' =>
      if chr_eqb c DQ then Some ([], s')
      else if chr_eqb c BS then
        match s' with
        | [] => None
        | e :: s'' =>
            if chr_eqb e "u" then
              match s'' with
              | a :: b :: c2 :: d :: rest =>
                  match hex4 a b c2 d with
                  | Some n =>
                      if n <? 256 then
                        match json_read_string rest with
                        | Some (m, r) => Some (ascii_of_nat n :: m, r)
                        | None => None
                        end
                      else None
                  | None => None
                  end
              | _ => None
              end
            else
              match short_escape e with
              | Some x =>
                  match json_read_string s'' with
                  | Some (m, r) => Some (x :: m, r)
                  | None => None
                  end
              | None => None
              end
        end
      else if nat_of_ascii c <? 32 then None
      else
        match json_read_string s' with
        | Some (m, r) => Some (c :: m, r)
        | None => None
        end
  end.

Fixpoint strip_prefix (p s : list ascii) : option (list ascii) :=
  match p, s with
  | [], _ => Some s
  | a :: p', b :: s' => if chr_eqb a b then strip_prefix p' s' else None
  | _ :: _, [] => None
  end.

(** The value of the ["error"] member of a one-member JSON object written
    with the default separators. *)
Definition read_error_payload (s : list ascii) : option string :=
  match strip_prefix (["{"%char; DQ] ++ list_ascii_of_string "error" ++ [DQ; ":"%char; " "%char; DQ])%list s with
  | Some rest =>
      match json_read_string rest with
      | Some (m, ["}"%char]) => Some (string_of_list_ascii m)
      | _ => None
      end
  | None => None
  end.

(* ================================================================== *)
(** * Properties *)

(** ** Title derivation *)

Definition blank (line : list ascii) : Prop := strip line = [].

Lemma derive_title_loop_spec (lines : list (list ascii)) (t : string) :
  derive_title_loop lines = t <->
  (exists pre l post, lines = (pre ++ l :: post)%list /\ Forall blank pre /\ ~ blank l /\
     t = string_of_list_ascii (take 200 (strip l)))
  \/ (Forall blank lines /\ t = TITLE_PLACEHOLDER).
Proof.
  induction lines as [|line rest IH]; simpl.
  - split.
    + intros <-. right. split; [constructor | reflexivity].
    + intros [(pre & l & post & Heq & _)|[_ ->]]; [|reflexivity].
      destruct pre; discriminate.
  - unfold blank at 1. destruct (strip line) as [|c cs] eqn:Hs.
    + rewrite IH. split.
      * intros [(pre & l & post & -> & Hpre & Hl & ->)|[Hall ->]].
        -- left. exists (line :: pre), l, post. repeat split; auto.
        -- right. split; [constructor; [exact Hs|exact Hall]|reflexivity].
      * intros [(pre & l & post & Heq & Hpre & Hl & ->)|[Hall ->]].
        -- destruct pre as [|x pre]; simpl in Heq; injection Heq as -> Heq.
           ++ exfalso. apply Hl. exact Hs.
           ++ left. exists pre, l, post. inversion Hpre; subst. auto.
        -- right. inversion Hall; subst. auto.
    + split.
      * intros <-. left. exists [], line, rest. repeat split; auto.
        -- unfold blank. rewrite Hs. discriminate.
        -- rewrite Hs. reflexivity.
      * intros [(pre & l & post & Heq & Hpre & Hl & ->)|[Hall ->]].
        -- destruct pre as [|x pre]; simpl in Heq; injection Heq as -> Heq.
           ++ rewrite Hs. reflexivity.
           ++ inversion Hpre as [|? ? Hx]; subst. unfold blank in Hx. congruence.
        -- inversion Hall as [|? ? Hx]; subst. unfold blank in Hx. congruence.
Qed.

Lemma length_string_of_list_ascii (l : list ascii) :
  String.length (string_of_list_ascii l) = length l.
Proof. induction l; simpl; auto. Qed.

(** C9: the title is the first line of [str.splitlines()] that is non-blank
    after [strip()], stripped and cut to 200 characters (so at most 200
    characters long); with no such line it is the placeholder.  Instances:
    ["\n\nHello World\nMore text"] gives ["Hello World"]; an all-blank text
    gives the placeholder. *)
Theorem derive_title_first_nonblank_line (text : string) :
  let lines := splitlines (list_ascii_of_string text) in
  (forall t, _derive_title text = t <->
     (exists pre l post, lines = (pre ++ l :: post)%list /\ Forall blank pre /\ ~ blank l /\
        t = string_of_list_ascii (take 200 (strip l)))
     \/ (Forall blank lines /\ t = TITLE_PLACEHOLDER))
  /\ (_derive_title text = TITLE_PLACEHOLDER \/ String.length (_derive_title text) <= 200)
  /\ _derive_title (String NL (String NL ("Hello World" ++ String NL "More text"))) = "Hello World"
  /\ _derive_title (" " ++ String NL (String "009" (String NL EmptyString))) = TITLE_PLACEHOLDER.
Proof.
  intros lines. split; [|split; [|split; reflexivity]].
  - intros t. apply derive_title_loop_spec.
  - destruct (proj1 (derive_title_loop_spec lines (_derive_title text)) eq_refl)
      as [(pre & l & post & _ & _ & _ & ->)|[_ ->]]; [right|left; reflexivity].
    rewrite length_string_of_list_ascii, length_take. lia.
Qed.

(** ** Case-number search *)

Definition item_ok (it : pat_item) (c : ascii) : bool :=
  match it with PDigit => is_digit c | PLit l => chr_eqb c l end.

Definition items_ok (p : list pat_item) (m : list ascii) : Prop :=
  Forall2 (fun it c => item_ok it c = true) p m.

Lemma match_items_spec (p : list pat_item) (s m r : list ascii) :
  match_items p s = Some (m, r) <-> s = (m ++ r)%list /\ items_ok p m.
Proof.
  unfold items_ok. revert s m r. induction p as [|it p IH]; intros s m r; simpl.
  - split.
    + intros H. injection H as <- <-. split; [reflexivity|constructor].
    + intros [-> Hf]. inversion Hf. reflexivity.
  - destruct s as [|c s'].
    + split; [discriminate|]. intros [Hs Hf]. inversion Hf; subst. discriminate.
    + destruct (match it with PDigit => is_digit c | PLit l => chr_eqb c l end) eqn:Hok.
      * destruct (match_items p s') as [[m' r']|] eqn:Hm.
        -- split.
           ++ intros H. injection H as <- <-. apply IH in Hm as [-> Hf].
              split; [reflexivity|constructor; auto].
           ++ intros [Hs Hf]. inversion Hf as [|? c' ? m'' Hc Hf']; subst.
              injection Hs as -> Hs. assert (Hm2 : match_items p s' = Some (m'', r)).
              { apply IH. auto. }
              congruence.
        -- split; [discriminate|]. intros [Hs Hf]. inversion Hf as [|? c' ? m'' Hc Hf']; subst.
           injection Hs as -> Hs. assert (Hm2 : match_items p s' = Some (m'', r)).
           { apply IH. auto. }
           congruence.
      * split; [discriminate|]. intros [Hs Hf]. inversion Hf as [|? c' ? m'' Hc Hf']; subst.
        injection Hs as -> Hs. unfold item_ok in Hc. congruence.
Qed.

Lemma process_items_shape (m : list ascii) :
  items_ok PROCESS_NUMBER_ITEMS m ->
  exists c d mid, m = (c :: mid ++ [d])%list /\ is_digit c = true /\ is_digit d = true
                  /\ length m = 25.
Proof.
  unfold items_ok, PROCESS_NUMBER_ITEMS, digits. simpl. intros H.
  repeat match goal with
         | H : Forall2 _ (_ :: _) _ |- _ => inversion H; subst; clear H
         | H : Forall2 _ [] _ |- _ => inversion H; subst; clear H
         end.
  simpl in *.
  eexists _, _, [_;_;_;_;_;_;_;_;_;_;_;_;_;_;_;_;_;_;_;_;_;_;_]. split; [reflexivity|].
  auto.
Qed.

Lemma digit_is_word (c : ascii) : is_digit c = true -> is_word c = true.
Proof. intros H. unfold is_word. rewrite H. reflexivity. Qed.

Lemma process_number_here_spec (before : option ascii) (s m : list ascii) :
  process_number_here before s = Some m <->
  exists r, s = (m ++ r)%list /\ items_ok PROCESS_NUMBER_ITEMS m /\
            is_word_opt before = false /\ is_word_opt (head r) = false.
Proof.
  unfold process_number_here.
  destruct (match_items PROCESS_NUMBER_ITEMS s) as [[m' r']|] eqn:Hm.
  - apply match_items_spec in Hm as [-> Hok].
    destruct (process_items_shape m' Hok) as (c & d & mid & Hm' & Hc & Hd & Hlen).
    assert (Hsame : forall m r, (m' ++ r')%list = (m ++ r)%list ->
                    items_ok PROCESS_NUMBER_ITEMS m -> m = m' /\ r = r').
    { intros m0 r0 Heq Hok0. destruct (process_items_shape m0 Hok0) as (_ & _ & _ & _ & _ & _ & Hlen0).
      destruct (app_inj_1 m' m0 r' r0) as [-> ->]; auto. congruence. }
    subst m'.
    assert (Hlast : last (c :: mid ++ [d])%list = Some d).
    { rewrite app_comm_cons, last_snoc. reflexivity. }
    simpl head. rewrite Hlast. unfold word_boundary. simpl is_word_opt.
    rewrite (digit_is_word c Hc), (digit_is_word d Hd).
    split.
    + intros H. destruct (is_word_opt before) eqn:Hb; simpl in H; [discriminate|].
      destruct (is_word_opt (head r')) eqn:Hr; simpl in H; [discriminate|].
      injection H as <-. exists r'. auto.
    + intros (r & Hs & Hok0 & Hb & Hr). destruct (Hsame m r Hs Hok0) as [-> ->].
      rewrite Hb, Hr. reflexivity.
  - assert (Hn : forall b : bool, (if b then None else None) = @None (list ascii))
      by (intros []; reflexivity).
    rewrite Hn. split; [discriminate|]. intros (r & -> & Hok & _).
    assert (match_items PROCESS_NUMBER_ITEMS (m ++ r) = Some (m, r)) by
      (apply match_items_spec; auto).
    congruence.
Qed.

Lemma process_number_here_nil (before : option ascii) : process_number_here before [] = None.
Proof. unfold process_number_here. simpl. destruct (word_boundary before None); reflexivity. Qed.

(** The character before position [i] of [pre ++ suf] when the scan of
    [search_go] has reached position [i] of [suf]. *)
Definition before_at (pre suf : list ascii) (i : nat) : option ascii :=
  last (pre ++ take i suf)%list.

Lemma search_go_some (pre suf m : list ascii) :
  search_go (last pre) suf = Some m ->
  exists i, process_number_here (before_at pre suf i) (drop i suf) = Some m /\
            forall j, j < i -> process_number_here (before_at pre suf j) (drop j suf) = None.
Proof.
  unfold before_at. revert pre. induction suf as [|c suf IH]; intros pre; simpl.
  - rewrite process_number_here_nil. discriminate.
  - destruct (process_number_here (last pre) (c :: suf)) as [m0|] eqn:Hh.
    + intros H. injection H as <-. exists 0. simpl. rewrite app_nil_r.
      split; [exact Hh|]. intros j Hj. lia.
    + intros H. assert (Hl : Some c = last (pre ++ [c])%list) by (rewrite last_snoc; reflexivity).
      rewrite Hl in H. destruct (IH _ H) as (i & Hi & Hlt).
      exists (S i). simpl. rewrite <- app_assoc in Hi. split; [exact Hi|].
      intros [|j] Hj; simpl.
      * rewrite app_nil_r. exact Hh.
      * specialize (Hlt j ltac:(lia)). rewrite <- app_assoc in Hlt. exact Hlt.
Qed.

Lemma search_go_none (pre suf : list ascii) :
  search_go (last pre) suf = None ->
  forall i, process_number_here (before_at pre suf i) (drop i suf) = None.
Proof.
  unfold before_at. revert pre. induction suf as [|c suf IH]; intros pre; simpl.
  - intros _ i. rewrite drop_nil. apply process_number_here_nil.
  - destruct (process_number_here (last pre) (c :: suf)) as [m0|] eqn:Hh; [discriminate|].
    intros H. assert (Hl : Some c = last (pre ++ [c])%list) by (rewrite last_snoc; reflexivity).
    rewrite Hl in H. intros [|i]; simpl.
    + rewrite app_nil_r. exact Hh.
    + specialize (IH _ H i). rewrite <- app_assoc in IH. exact IH.
Qed.

(** A match of [PROCESS_NUMBER_RE] at position [i] of [s]: the 25 characters
    there follow the canonical pattern, and neither the character before nor
    the one after them is a word character (the two [\b]). *)
Definition case_number_at (s : list ascii) (i : nat) : Prop :=
  items_ok PROCESS_NUMBER_ITEMS (take 25 (drop i s)) /\
  is_word_opt (last (take i s)) = false /\
  is_word_opt (head (drop (i + 25) s)) = false.

Lemma here_at_spec (s : list ascii) (i : nat) (m : list ascii) :
  process_number_here (before_at [] s i) (drop i s) = Some m <->
  case_number_at s i /\ m = take 25 (drop i s).
Proof.
  unfold before_at, case_number_at. simpl. rewrite process_number_here_spec. split.
  - intros (r & Hs & Hok & Hb & Hr).
    destruct (process_items_shape m Hok) as (_ & _ & _ & _ & _ & _ & Hlen).
    assert (Ht : take 25 (drop i s) = m) by (rewrite Hs; apply take_app_length'; auto).
    assert (Hd : drop (i + 25) s = r).
    { rewrite <- drop_drop, Hs. apply drop_app_length'. auto. }
    rewrite Ht, Hd. auto.
  - intros [(Hok & Hb & Hr) ->]. exists (drop (i + 25) s).
    rewrite <- drop_drop, firstn_skipn. rewrite <- drop_drop in Hr. auto.
Qed.

Lemma case_number_at_here (s : list ascii) (i : nat) :
  case_number_at s i ->
  process_number_here (before_at [] s i) (drop i s) = Some (take 25 (drop i s)).
Proof. intros H. apply here_at_spec. auto. Qed.

(** C4 (claim as written, refuted): the text ["12345678-89.2024.1.23.4567"]
    contains a substring with the canonical pattern (from its second
    character on), yet [_parse_case_number] raises instead of returning it:
    the [\b] anchors reject a number glued to a preceding digit. *)
Lemma parse_case_number_rejects_glued_digit :
  items_ok PROCESS_NUMBER_ITEMS
    (take 25 (drop 1 (list_ascii_of_string "12345678-89.2024.1.23.4567")))
  /\ _parse_case_number "12345678-89.2024.1.23.4567"
     = Raise (BuildDbError CASE_NUMBER_NOT_FOUND).
Proof. split; [vm_compute; repeat constructor | reflexivity]. Qed.

(** C4 (amended): [_parse_case_number] returns, verbatim, the leftmost
    substring that follows the canonical pattern and is delimited by word
    boundaries (no letter, digit or underscore right before or right after
    it); when the text has no such substring it raises [BuildDbError] with
    the case-number-not-found message. *)
Theorem parse_case_number_first_delimited (text : string) :
  let s := list_ascii_of_string text in
  (forall w, _parse_case_number text = Ok w <->
     exists i, case_number_at s i /\ (forall j, j < i -> ~ case_number_at s j) /\
               w = string_of_list_ascii (take 25 (drop i s)))
  /\ (_parse_case_number text = Raise (BuildDbError CASE_NUMBER_NOT_FOUND) <->
      forall i, ~ case_number_at s i).
Proof.
  intros s. unfold _parse_case_number. fold s.
  destruct (search_go None s) as [m|] eqn:Hsearch.
  - destruct (search_go_some [] s m Hsearch) as (i & Hi & Hlt).
    apply here_at_spec in Hi as [Hci ->].
    assert (Hfirst : forall j, j < i -> ~ case_number_at s j).
    { intros j Hj Hc. specialize (Hlt j Hj). rewrite case_number_at_here in Hlt by exact Hc.
      discriminate. }
    split.
    + intros w. split.
      * intros H. injection H as <-. exists i. auto.
      * intros (i' & Hci' & Hfirst' & ->).
        assert (i' = i) as ->.
        { destruct (Nat.lt_trichotomy i' i) as [Hlt'|[Heq|Hgt]]; auto.
          - exfalso. exact (Hfirst i' Hlt' Hci').
          - exfalso. exact (Hfirst' i Hgt Hci). }
        reflexivity.
    + split; [discriminate|]. intros H. exfalso. exact (H i Hci).
  - pose proof (search_go_none [] s Hsearch) as Hnone.
    assert (Hno : forall i, ~ case_number_at s i).
    { intros i Hc. specialize (Hnone i). rewrite case_number_at_here in Hnone by exact Hc.
      discriminate. }
    split.
    + intros w. split; [discriminate|]. intros (i & Hc & _). exfalso. exact (Hno i Hc).
    + split; [intros _; exact Hno|intros _; reflexivity].
Qed.

(** ** Text extraction failures and the scratch file *)

(** C6 (claim as written, refuted): a missing [pdftotext] and a non-zero
    exit raise exceptions of the same class, [PdfTextExtractionError]. *)
Lemma extraction_failures_same_class :
  match (extract_text_from_pdf ToolMissing "a.pdf" "a.txt" ∅).1,
        (extract_text_from_pdf (ToolExit 1 "boom" None) "a.pdf" "a.txt" ∅).1 with
  | Raise e1, Raise e2 => kind_of e1 = kind_of e2 /\ kind_of e1 = KPdfTextExtractionError
  | _, _ => False
  end.
Proof. split; reflexivity. Qed.

(** C6 (amended): both a missing converter and a non-zero exit raise
    [PdfTextExtractionError] (a [BuildDbError]); they differ only in the
    message: the fixed not-available message, or the conversion-failure
    message carrying the file name and [repr] of the converter's stderr. *)
Theorem extraction_failures_differ_by_message (pdf_name dest : string)
    (scratch : gmap string string) (code : Z) (err : string) (written : option string)
    (Hcode : code <> 0%Z) :
  (extract_text_from_pdf ToolMissing pdf_name dest scratch).1
    = Raise (PdfTextExtractionError PDFTOTEXT_MISSING)
  /\ (extract_text_from_pdf (ToolExit code err written) pdf_name dest scratch).1
    = Raise (PdfTextExtractionError (conversion_failed pdf_name err))
  /\ PDFTOTEXT_MISSING <> conversion_failed pdf_name err
  /\ is_build_db_error (PdfTextExtractionError PDFTOTEXT_MISSING) = true
  /\ kind_of (PdfTextExtractionError PDFTOTEXT_MISSING)
     = kind_of (PdfTextExtractionError (conversion_failed pdf_name err)).
Proof.
  split; [reflexivity|]. split.
  - simpl. destruct (Z.eqb_spec code 0); [contradiction|].
    destruct written; reflexivity.
  - split; [unfold PDFTOTEXT_MISSING, conversion_failed; simpl; discriminate|].
    split; reflexivity.
Qed.

(** The scratch directory once [pdftotext] has run (it may have written the
    destination file). *)
Definition scratch_after_tool (tool : tool_outcome) (dest : string)
    (scratch : gmap string string) : gmap string string :=
  match tool with
  | ToolExit _ _ (Some t) => <[dest:=t]> scratch
  | _ => scratch
  end.

(** C7 (claim as written, refuted): when [pdftotext] exits with status 1
    after writing part of its output, [extract_text_from_pdf] raises and the
    scratch file is still there. *)
Lemma scratch_file_kept_on_failure :
  let '(r, sc) := extract_text_from_pdf (ToolExit 1 "err" (Some "partial")) "a.pdf" "a.txt" ∅ in
  (exists e, r = Raise e) /\ sc !! "a.txt" = Some "partial".
Proof. simpl. split; [eexists; reflexivity | reflexivity]. Qed.

(** C7 (amended): the scratch file is deleted only on the success path,
    after its text has been read; when [extract_text_from_pdf] raises
    (converter missing, non-zero exit, or the file cannot be read) it removes
    nothing, so whatever file the converter left (or that already existed)
    stays in the scratch directory. *)
Theorem scratch_file_deleted_only_on_success (tool : tool_outcome) (pdf_name dest : string)
    (scratch : gmap string string) :
  let '(r, sc) := extract_text_from_pdf tool pdf_name dest scratch in
  match r with
  | Ok _ => sc = delete dest (scratch_after_tool tool dest scratch) /\ sc !! dest = None
  | Raise _ => sc = scratch_after_tool tool dest scratch
  end.
Proof.
  destruct tool as [|code err written]; simpl; [reflexivity|].
  destruct (Z.eqb code 0).
  - destruct written as [t|]; simpl.
    + rewrite lookup_insert_eq. split; [reflexivity|]. apply lookup_delete_eq.
    + destruct (scratch !! dest) eqn:Hd; [|reflexivity].
      split; [reflexivity|]. apply lookup_delete_eq.
  - destruct written; reflexivity.
Qed.

Lemma extraction_failures_differ_by_message_witness :
  (1%Z <> 0%Z) /\
  (extract_text_from_pdf ToolMissing "a.pdf" "a.txt" ∅).1
    = Raise (PdfTextExtractionError PDFTOTEXT_MISSING)
  /\ (extract_text_from_pdf (ToolExit 1 "boom" None) "a.pdf" "a.txt" ∅).1
    = Raise (PdfTextExtractionError (conversion_failed "a.pdf" "boom"))
  /\ PDFTOTEXT_MISSING <> conversion_failed "a.pdf" "boom"
  /\ is_build_db_error (PdfTextExtractionError PDFTOTEXT_MISSING) = true
  /\ kind_of (PdfTextExtractionError PDFTOTEXT_MISSING)
     = kind_of (PdfTextExtractionError (conversion_failed "a.pdf" "boom")).
Proof.
  split; [lia|].
  apply (extraction_failures_differ_by_message "a.pdf" "a.txt" ∅ 1 "boom" None). lia.
Defined.

(** ** The files visited by a run *)

Lemma glob_star_spec (pat' name : list ascii) :
  (fix star (n : list ascii) : bool :=
     glob_match pat' n || match n with [] => false | _ :: n' => star n' end) name = true
  <-> exists pre suf, name = (pre ++ suf)%list /\ glob_match pat' suf = true.
Proof.
  induction name as [|c name IH]; simpl.
  - rewrite orb_false_r. split.
    + intros H. exists [], []. auto.
    + intros (pre & suf & Heq & H). destruct pre, suf; try discriminate. exact H.
  - rewrite orb_true_iff, IH. split.
    + intros [H|(pre & suf & -> & H)].
      * exists [], (c :: name). auto.
      * exists (c :: pre), suf. auto.
    + intros (pre & suf & Heq & H). destruct pre as [|c' pre].
      * left. simpl in Heq. subst. exact H.
      * right. injection Heq as -> ->. exists pre, suf. auto.
Qed.

Lemma chr_eqb_true (a b : ascii) : chr_eqb a b = true <-> a = b.
Proof. unfold chr_eqb. apply Ascii.eqb_eq. Qed.

Lemma glob_literal (p n : list ascii) :
  Forall (fun c => chr_eqb c "*" = false) p -> (glob_match p n = true <-> n = p).
Proof.
  intros Hp. revert n. induction Hp as [|c p Hc Hp IH]; intros [|d n]; cbn [glob_match].
  - split; reflexivity.
  - split; discriminate.
  - rewrite Hc. split; discriminate.
  - rewrite Hc, andb_true_iff, chr_eqb_true, IH. split.
    + intros [-> ->]. reflexivity.
    + intros H. injection H as -> ->. auto.
Qed.

Lemma glob_literal_pdf (n : list ascii) :
  glob_match (list_ascii_of_string ".pdf") n = true <-> n = list_ascii_of_string ".pdf".
Proof. apply glob_literal. repeat constructor. Qed.

Lemma pdf_glob_spec (name : string) :
  glob_match (list_ascii_of_string PDF_GLOB) (list_ascii_of_string name) = true <->
  exists pre, list_ascii_of_string name = (pre ++ list_ascii_of_string ".pdf")%list.
Proof.
  assert (Hg : forall n, glob_match (list_ascii_of_string PDF_GLOB) n =
     (fix star (n : list ascii) : bool :=
        glob_match (list_ascii_of_string ".pdf") n
        || match n with [] => false | _ :: n' => star n' end) n)
    by (intros; reflexivity).
  rewrite Hg, glob_star_spec. split.
  - intros (pre & suf & Heq & H). apply glob_literal_pdf in H. subst. eauto.
  - intros (pre & Heq). exists pre, (list_ascii_of_string ".pdf"). split; [exact Heq|reflexivity].
Qed.

Lemma StronglySorted_filter_bool {A} (R : relation A) (f : A -> bool) (l : list A) :
  StronglySorted R l -> StronglySorted R (List.filter f l).
Proof.
  induction 1 as [|x l Hl IH Hx]; simpl; [constructor|].
  destruct (f x); [|exact IH]. constructor; [exact IH|].
  rewrite Forall_forall in *. intros y Hy. apply list_elem_of_In, filter_In in Hy as [Hy _].
  apply Hx, list_elem_of_In, Hy.
Qed.

Lemma map_fst_fmap {A B} (l : list (A * B)) : map fst l = l.*1.
Proof. induction l as [|x l IH]; simpl; [reflexivity|]. rewrite IH. reflexivity. Qed.

Lemma iter_pdf_files_in (directory : gmap string entry) (n : string) :
  In n (_iter_pdf_files directory) <->
  (exists b, directory !! n = Some (EFile b)) /\
  exists pre, list_ascii_of_string n = (pre ++ list_ascii_of_string ".pdf")%list.
Proof.
  unfold _iter_pdf_files. rewrite filter_In.
  rewrite <- list_elem_of_In, (elem_of_Permutation_proper _ _ _ (merge_sort_Permutation _ _)),
    list_elem_of_In, filter_In, <- pdf_glob_spec, map_fst_fmap, <- list_elem_of_In,
    list_elem_of_fmap.
  split.
  - intros [[[(k, e) [-> Hk]] Hg] Hf]. simpl in *. apply elem_of_map_to_list in Hk.
    rewrite Hk in Hf. destruct e; try discriminate. eauto.
  - intros [[b Hb] Hg]. rewrite Hb. split; [|reflexivity]. split; [|exact Hg].
    exists (n, EFile b). split; [reflexivity|]. apply elem_of_map_to_list. exact Hb.
Qed.

Lemma process_pdf_ok_name (E : env) (name : string) (w w' : fs) (r : import_result) :
  process_pdf E name w = (Ok r, w') -> ir_stored_name r = name.
Proof.
  unfold process_pdf.
  destruct (extract_text_from_pdf _ _ _ _) as [[text|e] sc].
  - destruct (_parse_case_number text) as [number|e]; [|discriminate].
    intros H. injection H as <- _. reflexivity.
  - discriminate.
Qed.

Lemma load_loop_names (E : env) (paths : list string) (w w' : fs) (rs : list import_result) :
  load_loop E paths w = (Ok rs, w') -> map ir_stored_name rs = paths.
Proof.
  revert w w' rs. induction paths as [|p paths IH]; intros w w' rs; simpl.
  - intros H. injection H as <- _. reflexivity.
  - destruct (process_pdf E p w) as [[r|e] w1] eqn:Hp; [|discriminate].
    destruct (load_loop E paths w1) as [[rs'|e] w2] eqn:Hl; [|discriminate].
    intros H. injection H as <- _. simpl.
    rewrite (process_pdf_ok_name _ _ _ _ _ Hp), (IH _ _ _ Hl). reflexivity.
Qed.

(** C10: the run visits exactly the entries of the source directory that are
    files ([is_file()]) and whose name matches [*.pdf] case-sensitively (ends
    in [.pdf], so [A.PDF] is not one), each once, in ascending name order; a
    successful [load_pdf_results] yields one result per such file, in that
    order, and nothing for any other entry. *)
Theorem iter_pdf_files_exact_sorted (directory : gmap string entry) :
  let l := _iter_pdf_files directory in
  StronglySorted String.le l /\ NoDup l /\
  (forall n, In n l <->
     (exists b, directory !! n = Some (EFile b)) /\
     exists pre, list_ascii_of_string n = (pre ++ list_ascii_of_string ".pdf")%list)
  /\ (forall E w rs w', source w = directory -> load_pdf_results E w = (Ok rs, w') ->
        map ir_stored_name rs = l)
  /\ _iter_pdf_files (<["A.PDF" := EFile "x"]> (<["b.pdf" := EDir]>
                       (<["c.pdf" := EFile "y"]> (<["a.pdf" := EFile "z"]> ∅))))
     = ["a.pdf"; "c.pdf"].
Proof.
  intros l. split; [|split; [|split; [|split]]].
  - unfold l, _iter_pdf_files. apply StronglySorted_filter_bool.
    apply Sorted_StronglySorted; [apply _|]. apply Sorted_merge_sort. apply _.
  - unfold l, _iter_pdf_files. apply NoDup_ListNoDup, List.NoDup_filter.
    eapply Permutation_NoDup; [symmetry; apply merge_sort_Permutation|].
    apply List.NoDup_filter. rewrite map_fst_fmap. apply NoDup_ListNoDup, NoDup_fst_map_to_list.
  - intros n. apply iter_pdf_files_in.
  - intros E w rs w' Hsrc Hload. unfold load_pdf_results in Hload. rewrite Hsrc in Hload.
    exact (load_loop_names _ _ _ _ _ Hload).
  - vm_compute. reflexivity.
Qed.

(** ** Aborting a run on the first failing document *)

Lemma process_pdf_files (E : env) (name : string) (w : fs) :
  source (process_pdf E name w).2 = source w /\
  storage (process_pdf E name w).2 =
    (if source_is_storage E then storage w else <[name := src_bytes w name]> (storage w)).
Proof.
  unfold process_pdf.
  destruct (extract_text_from_pdf _ _ _ _) as [[text|e] sc].
  - destruct (_parse_case_number text); destruct (source_is_storage E); split; reflexivity.
  - destruct (source_is_storage E); split; reflexivity.
Qed.

Lemma load_loop_app_fail (E : env) (pre post : list string) (p : string)
    (w w1 w2 : fs) (rs : list import_result) (e : exc) :
  load_loop E pre w = (Ok rs, w1) -> process_pdf E p w1 = (Raise e, w2) ->
  load_loop E (pre ++ p :: post)%list w = (Raise e, w2).
Proof.
  revert w rs. induction pre as [|q pre IH]; intros w rs; simpl.
  - intros H Hp. injection H as _ <-. rewrite Hp. reflexivity.
  - destruct (process_pdf E q w) as [[r|e'] w'] eqn:Hq; [|discriminate].
    destruct (load_loop E pre w') as [[rs'|e'] w''] eqn:Hl; [|discriminate].
    intros H Hp. injection H as _ <-. rewrite (IH _ _ Hl Hp). reflexivity.
Qed.

Lemma load_loop_storage_other (E : env) (paths : list string) (w w' : fs)
    (r : res (list import_result)) (q : string) :
  load_loop E paths w = (r, w') -> ~ In q paths ->
  storage w' !! q = storage w !! q /\ source w' = source w.
Proof.
  revert w r. induction paths as [|p paths IH]; intros w r; simpl.
  - intros H _. injection H as _ <-. auto.
  - intros H Hq. destruct (process_pdf_files E p w) as [Hsrc Hst].
    assert (Hq1 : storage (process_pdf E p w).2 !! q = storage w !! q).
    { rewrite Hst. destruct (source_is_storage E); [reflexivity|].
      apply lookup_insert_ne. intros ->. apply Hq. left. reflexivity. }
    destruct (process_pdf E p w) as [[x|e] w1] eqn:Hp; simpl in *.
    + destruct (load_loop E paths w1) as [[rs|e] w2] eqn:Hl;
        injection H as _ <-;
        (destruct (IH _ _ Hl) as [H1 H2]; [intros Hin; apply Hq; right; exact Hin|]);
        rewrite H1, H2; auto.
    + injection H as _ <-. auto.
Qed.

(** A run over one source file ["a.pdf"] whose text has no case number. *)
Definition no_number_env : env :=
  {| tool := fun b => ToolExit 0 EmptyString (Some b); source_is_storage := false;
     storage_dir_str := "/data/pdfs"; db_fault := fun _ => None;
     utcnow_at := fun _ => "2024-01-01T00:00:00" |}.

Definition no_number_fs : fs :=
  {| source := <["a.pdf" := EFile "no number here"]> ∅; storage := ∅; scratch := ∅ |}.

(** A run over three source files: [a.pdf] and [c.pdf] bear a case number,
    [b.pdf], between them in sorted order, does not. *)
Definition fail_mid_a : string := "0000001-23.2024.8.26.0100 a".

Definition fail_mid_fs : fs :=
  {| source := <["a.pdf" := EFile fail_mid_a]>
                 (<["b.pdf" := EFile "no number here"]>
                 (<["c.pdf" := EFile "0000002-23.2024.8.26.0100 c"]> ∅));
     storage := ∅; scratch := ∅ |}.

Definition fail_mid_rs : list import_result :=
  match (load_loop no_number_env ["a.pdf"] fail_mid_fs).1 with
  | Ok rs => rs | Raise _ => [] end.

Definition fail_mid_w1 : fs := (load_loop no_number_env ["a.pdf"] fail_mid_fs).2.

Definition fail_mid_w2 : fs := (process_pdf no_number_env "b.pdf" fail_mid_w1).2.

(** C5 (claim as written, refuted): the run over [no_number_fs] fails on
    the missing case number and writes nothing to the database (not even
    the file), yet the document's PDF has been copied into the durable
    storage directory before the failure and stays there. *)
Lemma failed_run_keeps_storage_copy :
  let '(r, w', store') := build_database no_number_env no_number_fs None in
  r = Raise (BuildDbError CASE_NUMBER_NOT_FOUND) /\ store' = None /\
  storage no_number_fs !! "a.pdf" = None /\ storage w' !! "a.pdf" = Some "no number here".
Proof. vm_compute. repeat split. Qed.

(** C5 (amended): when the files before [p] (in sorted order) are processed
    without error and [p] fails (extraction or case number), the run raises
    that error; the database is left exactly as it was (not opened); the
    files end as they were right after [p]'s attempt, whatever follows [p];
    no file other than those before [p] and [p] itself is copied into
    storage; and [p]'s PDF itself has been copied into storage (unless the
    source directory is the storage directory). *)
Theorem build_database_stops_at_first_failure (E : env) (w w1 w2 : fs) (store : option db)
    (pre post : list string) (p : string) (rs : list import_result) (e : exc)
    (Hfiles : _iter_pdf_files (source w) = (pre ++ p :: post)%list)
    (Hpre : load_loop E pre w = (Ok rs, w1))
    (Hp : process_pdf E p w1 = (Raise e, w2)) :
  build_database E w store = (Raise e, w2, store)
  /\ (forall q, ~ In q pre -> q <> p -> storage w2 !! q = storage w !! q)
  /\ storage w2 = (if source_is_storage E then storage w1
                   else <[p := src_bytes w1 p]> (storage w1)).
Proof.
  destruct (process_pdf_files E p w1) as [_ Hst]. rewrite Hp in Hst. simpl in Hst.
  split; [|split].
  - unfold build_database, load_pdf_results. rewrite Hfiles.
    rewrite (load_loop_app_fail E pre post p w w1 w2 rs e Hpre Hp). reflexivity.
  - intros q Hq Hqp. destruct (load_loop_storage_other E pre w w1 _ q Hpre Hq) as [H1 _].
    rewrite Hst. destruct (source_is_storage E); [exact H1|].
    rewrite lookup_insert_ne by congruence. exact H1.
  - exact Hst.
Qed.

Lemma build_database_stops_at_first_failure_witness :
  _iter_pdf_files (source fail_mid_fs) = (["a.pdf"] ++ "b.pdf" :: ["c.pdf"])%list /\
  load_loop no_number_env ["a.pdf"] fail_mid_fs = (Ok fail_mid_rs, fail_mid_w1) /\
  process_pdf no_number_env "b.pdf" fail_mid_w1
    = (Raise (BuildDbError CASE_NUMBER_NOT_FOUND), fail_mid_w2) /\
  (build_database no_number_env fail_mid_fs None
     = (Raise (BuildDbError CASE_NUMBER_NOT_FOUND), fail_mid_w2, None)
   /\ (forall q, ~ In q ["a.pdf"] -> q <> "b.pdf" ->
         storage fail_mid_w2 !! q = storage fail_mid_fs !! q)
   /\ storage fail_mid_w2
      = (if source_is_storage no_number_env then storage fail_mid_w1
         else <[ "b.pdf" := src_bytes fail_mid_w1 "b.pdf"]> (storage fail_mid_w1))) /\
  length fail_mid_rs = 1 /\
  storage fail_mid_w2 !! "a.pdf" = Some fail_mid_a /\
  storage fail_mid_w2 !! "b.pdf" = Some "no number here" /\
  storage fail_mid_w2 !! "c.pdf" = None.
Proof.
  assert (H1 : _iter_pdf_files (source fail_mid_fs) = (["a.pdf"] ++ "b.pdf" :: ["c.pdf"])%list)
    by (vm_compute; reflexivity).
  assert (H2 : load_loop no_number_env ["a.pdf"] fail_mid_fs = (Ok fail_mid_rs, fail_mid_w1))
    by (vm_compute; reflexivity).
  assert (H3 : process_pdf no_number_env "b.pdf" fail_mid_w1
    = (Raise (BuildDbError CASE_NUMBER_NOT_FOUND), fail_mid_w2)) by (vm_compute; reflexivity).
  split; [exact H1|]. split; [exact H2|]. split; [exact H3|]. split.
  - exact (build_database_stops_at_first_failure no_number_env fail_mid_fs fail_mid_w1
             fail_mid_w2 None ["a.pdf"] ["c.pdf"] "b.pdf" fail_mid_rs
             (BuildDbError CASE_NUMBER_NOT_FOUND) H1 H2 H3).
  - vm_compute. repeat split.
Defined.

(** ** The store: one process row per case number *)

(** Every row of [d] is still in [d'] with the same identity, case number and
    creation time. *)
Definition keeps_rows (d d' : db) : Prop :=
  forall row, In row (processes d) ->
    exists row', In row' (processes d') /\ p_id row' = p_id row /\
                 p_number row' = p_number row /\ p_created_at row' = p_created_at row.

Definition unique_numbers (d : db) : Prop := List.NoDup (map p_number (processes d)).

Lemma keeps_rows_refl (d : db) : keeps_rows d d.
Proof. intros row Hin. exists row. auto. Qed.

Lemma keeps_rows_trans (d1 d2 d3 : db) :
  keeps_rows d1 d2 -> keeps_rows d2 d3 -> keeps_rows d1 d3.
Proof.
  intros H12 H23 row Hin. destruct (H12 row Hin) as (r2 & Hin2 & Hi2 & Hn2 & Hc2).
  destruct (H23 r2 Hin2) as (r3 & Hin3 & Hi3 & Hn3 & Hc3). exists r3.
  split; [exact Hin3|]. split; [congruence|]. split; congruence.
Qed.

Lemma keeps_rows_same_processes (d d' : db) : processes d' = processes d -> keeps_rows d d'.
Proof. intros H row Hin. exists row. rewrite H. auto. Qed.

Lemma existsb_number_false (n : string) (ps : list process_row) :
  existsb (fun r => String.eqb (p_number r) n) ps = false -> ~ In n (map p_number ps).
Proof.
  intros H Hin. apply in_map_iff in Hin as (r & Hr & Hin).
  assert (existsb (fun r => String.eqb (p_number r) n) ps = true).
  { apply existsb_exists. exists r. split; [exact Hin|]. apply String.eqb_eq. exact Hr. }
  congruence.
Qed.

Lemma map_number_update (n title path : string) (ps : list process_row) :
  map p_number (map (fun r => if String.eqb (p_number r) n
                              then update_title_path title path r else r) ps)
  = map p_number ps.
Proof.
  induction ps as [|r ps IH]; simpl; [reflexivity|]. rewrite IH.
  destruct (String.eqb (p_number r) n); reflexivity.
Qed.

Lemma upsert_unique (n title path t : string) (d : db) :
  unique_numbers d -> unique_numbers (upsert_process n title path t d).
Proof.
  unfold unique_numbers, upsert_process.
  destruct (existsb _ (processes d)) eqn:He; simpl.
  - rewrite map_number_update. auto.
  - intros H. rewrite map_app. simpl. apply NoDup_ListNoDup, NoDup_app.
    split; [apply NoDup_ListNoDup, H|]. split.
    + intros x Hx Hx'. apply list_elem_of_singleton in Hx' as ->.
      apply list_elem_of_In in Hx. exact (existsb_number_false _ _ He Hx).
    + apply NoDup_singleton.
Qed.

Lemma upsert_keeps_rows (n title path t : string) (d : db) :
  keeps_rows d (upsert_process n title path t d).
Proof.
  unfold upsert_process. destruct (existsb _ (processes d)); intros row Hin; simpl.
  - exists (if String.eqb (p_number row) n then update_title_path title path row else row).
    split; [apply in_map_iff; exists row; auto|].
    destruct (String.eqb (p_number row) n); simpl; auto.
  - exists row. split; [apply in_or_app; left; exact Hin|]. auto.
Qed.

(** The re-import case: the existing row of the case number keeps its
    identity and creation time and gets the new title and path; every other
    row is unchanged; no row is added. *)
Lemma upsert_existing (n title path t : string) (d : db) (row : process_row) :
  unique_numbers d -> In row (processes d) -> p_number row = n ->
  length (processes (upsert_process n title path t d)) = length (processes d) /\
  forall r', In r' (processes (upsert_process n title path t d)) <->
             (In r' (processes d) /\ p_number r' <> n) \/ r' = update_title_path title path row.
Proof.
  intros Hu Hin Hn. unfold upsert_process.
  assert (He : existsb (fun r => String.eqb (p_number r) n) (processes d) = true).
  { apply existsb_exists. exists row. split; [exact Hin|]. apply String.eqb_eq. exact Hn. }
  rewrite He. simpl. split; [apply length_map|].
  assert (Honly : forall r, In r (processes d) -> p_number r = n -> r = row).
  { intros r Hr Hrn. unfold unique_numbers in Hu.
    apply in_split in Hin as (l1 & l2 & Hd). rewrite Hd in Hu, Hr.
    rewrite map_app in Hu. simpl in Hu. apply NoDup_remove_2 in Hu.
    apply in_app_or in Hr as [Hr|[<-|Hr]]; [|reflexivity|];
      exfalso; apply Hu; rewrite <- map_app; apply in_map_iff; exists r;
      (split; [congruence|apply in_or_app; auto]). }
  intros r'. rewrite in_map_iff. split.
  - intros (r & <- & Hr). destruct (String.eqb_spec (p_number r) n) as [Heq|Hne].
    + right. rewrite (Honly r Hr Heq). reflexivity.
    + left. auto.
  - intros [[Hr Hne] | ->].
    + exists r'. split; [|exact Hr]. destruct (String.eqb_spec (p_number r') n); congruence.
    + exists row. split; [|exact Hin]. rewrite Hn, String.eqb_refl. reflexivity.
Qed.

(** Invariants of the connection kept by every statement. *)
Definition M_pres {A} (Q : conn -> Prop) (m : M A) : Prop := forall c, Q c -> Q (m c).2.

Definition db_ok (d0 d : db) : Prop := unique_numbers d /\ keeps_rows d0 d.

Definition conn_ok (d0 : db) (c : conn) : Prop :=
  db_ok d0 (committed c) /\ db_ok d0 (pending c).

Lemma pres_bind {A B} (Q : conn -> Prop) (m : M A) (k : A -> M B) :
  M_pres Q m -> (forall a, M_pres Q (k a)) -> M_pres Q (m ≫= k).
Proof.
  intros Hm Hk c Hc. unfold mbind, M_bind.
  pose proof (Hm c Hc) as Hc'. destruct (m c) as [[a|e] c'] eqn:E; simpl in *; auto.
  apply Hk. exact Hc'.
Qed.

Lemma pres_ret {A} (Q : conn -> Prop) (a : A) : M_pres Q (mret a).
Proof. intros c Hc. exact Hc. Qed.

Lemma pres_raise {A} (Q : conn -> Prop) (e : exc) : M_pres Q (@raise A e).
Proof. intros c Hc. exact Hc. Qed.

Lemma pres_utcnow (d0 : db) (utc : nat -> string) : M_pres (conn_ok d0) (utcnow utc).
Proof. intros c Hc. exact Hc. Qed.

Lemma pres_query {A} (d0 : db) fault st (q : db -> A) : M_pres (conn_ok d0) (query fault st q).
Proof. intros c Hc. unfold query. destruct (decide _); exact Hc. Qed.

Lemma pres_commit (d0 : db) fault st : M_pres (conn_ok d0) (commit fault st).
Proof.
  intros c [Hc Hp]. unfold commit. destruct (decide _); unfold conn_ok; simpl; auto.
Qed.

Lemma pres_exec (d0 : db) fault st (f : db -> db) :
  (forall d, db_ok d0 d -> db_ok d0 (f d)) -> M_pres (conn_ok d0) (exec fault st f).
Proof.
  intros Hf c [Hc Hp]. unfold exec. destruct (decide _); unfold conn_ok; simpl; auto.
Qed.

Lemma db_ok_same_processes (d0 d d' : db) :
  processes d' = processes d -> db_ok d0 d -> db_ok d0 d'.
Proof.
  intros H [Hu Hk]. split.
  - unfold unique_numbers. rewrite H. exact Hu.
  - eapply keeps_rows_trans; [exact Hk|]. apply keeps_rows_same_processes. exact H.
Qed.

Lemma insert_events_processes (rows : list (Z * string * string)) (d : db) :
  processes (insert_events rows d) = processes d.
Proof.
  unfold insert_events. revert d. induction rows as [|[[pid date] desc] rows IH]; intros d;
    simpl; [reflexivity|]. rewrite IH. reflexivity.
Qed.

Lemma db_ok_upsert d0 n title path t d :
  db_ok d0 d -> db_ok d0 (upsert_process n title path t d).
Proof.
  intros [Hu Hk]. split; [apply upsert_unique; exact Hu|].
  eapply keeps_rows_trans; [exact Hk|]. apply upsert_keeps_rows.
Qed.

Lemma db_ok_delete_events d0 pid d : db_ok d0 d -> db_ok d0 (delete_events pid d).
Proof. apply db_ok_same_processes. reflexivity. Qed.

Lemma db_ok_delete_documents d0 pid d : db_ok d0 d -> db_ok d0 (delete_documents pid d).
Proof. apply db_ok_same_processes. reflexivity. Qed.

Lemma db_ok_insert_events d0 rows d : db_ok d0 d -> db_ok d0 (insert_events rows d).
Proof. apply db_ok_same_processes. apply insert_events_processes. Qed.

Lemma db_ok_insert_document d0 pid name content t d :
  db_ok d0 d -> db_ok d0 (insert_document pid name content t d).
Proof. apply db_ok_same_processes. reflexivity. Qed.

Create HintDb db_ok.
Global Hint Resolve db_ok_upsert db_ok_delete_events db_ok_delete_documents
  db_ok_insert_events db_ok_insert_document : db_ok.

Ltac pres_step :=
  match goal with
  | |- M_pres _ (mbind _ _) => apply pres_bind; [|intros ?]
  | |- M_pres _ (utcnow _) => apply pres_utcnow
  | |- M_pres _ (exec _ _ _) => apply pres_exec; intros ?d ?Hd; auto with db_ok
  | |- M_pres _ (commit _ _) => apply pres_commit
  | |- M_pres _ (query _ _ _) => apply pres_query
  | |- M_pres _ (mret _) => apply pres_ret
  | |- M_pres _ (raise _) => apply pres_raise
  | |- M_pres _ (match ?x with _ => _ end) => destruct x
  end.

Lemma persist_one_pres (d0 : db) (utc : nat -> string) fault (r : import_result) :
  M_pres (conn_ok d0) (persist_one utc fault r).
Proof. unfold persist_one, _get_process_id. repeat pres_step. Qed.

Lemma persist_import_results_pres (d0 : db) (utc : nat -> string)
    (batch : list (import_result * option stage)) :
  M_pres (conn_ok d0) (persist_import_results utc batch).
Proof.
  induction batch as [|[r fault] batch IH]; simpl; [apply pres_ret|].
  apply pres_bind; [apply persist_one_pres|intros _; exact IH].
Qed.

(** C1: starting from a store with one process row per case number and no
    pending changes, any run of [persist_import_results] (whatever statement
    fails, if any) leaves a store that still has at most one row per case
    number and still holds every earlier row under the same identity, case
    number and creation time (no row is ever deleted or re-numbered).  The
    upsert of a case number that already has a row changes only that row's
    title and source path and adds no row. *)
Theorem process_row_per_case_number (utc : nat -> string)
    (batch : list (import_result * option stage)) (c : conn)
    (Hc : committed c = pending c) (Hu : unique_numbers (committed c)) :
  unique_numbers (committed (persist_import_results utc batch c).2)
  /\ keeps_rows (committed c) (committed (persist_import_results utc batch c).2)
  /\ (forall n title path t d row,
        unique_numbers d -> In row (processes d) -> p_number row = n ->
        length (processes (upsert_process n title path t d)) = length (processes d) /\
        forall r', In r' (processes (upsert_process n title path t d)) <->
                   (In r' (processes d) /\ p_number r' <> n)
                   \/ r' = update_title_path title path row).
Proof.
  assert (Hok : conn_ok (committed c) c).
  { split; split; try (rewrite <- ?Hc; exact Hu); rewrite <- ?Hc; apply keeps_rows_refl. }
  destruct (persist_import_results_pres (committed c) utc batch c Hok) as [[H1 H2] _].
  split; [exact H1|]. split; [exact H2|].
  intros. apply upsert_existing; assumption.
Qed.

Definition result_a : import_result :=
  {| ir_process_number := "0000001-23.2024.8.26.0100"; ir_title := "A";
     ir_events := [("01/02/2024", ("Distribu" ++ String "237" "do")%string)]; ir_document_text := "texto A";
     ir_stored_dir := "storage"; ir_stored_name := "a.pdf" |}.

Definition result_b : import_result :=
  {| ir_process_number := "0000001-23.2024.8.26.0100"; ir_title := "B";
     ir_events := [("03/04/2024", ("Senten" ++ String "231" "a")%string)]; ir_document_text := "texto B";
     ir_stored_dir := "storage"; ir_stored_name := "b.pdf" |}.

Definition empty_conn : conn := {| committed := empty_db; pending := empty_db; clock := 0 |}.

Lemma process_row_per_case_number_witness :
  committed empty_conn = pending empty_conn /\ unique_numbers (committed empty_conn) /\
  unique_numbers (committed (persist_import_results (fun _ => "t")
    [(result_a, None); (result_b, Some SDeleteEvents)] empty_conn).2).
Proof.
  assert (H1 : committed empty_conn = pending empty_conn) by reflexivity.
  assert (H2 : unique_numbers (committed empty_conn)) by constructor.
  split; [exact H1|]. split; [exact H2|].
  exact (proj1 (process_row_per_case_number (fun _ => "t")
    [(result_a, None); (result_b, Some SDeleteEvents)] empty_conn H1 H2)).
Defined.

(** ** Replacing the events and documents of a process *)

(** The [(event_date, description)] rows of process [pid], in rowid order. *)
Definition events_of (pid : Z) (d : db) : list event :=
  map (fun e => (ev_event_date e, ev_description e))
    (List.filter (fun e => Z.eqb (ev_process_id e) pid) (events d)).

(** The [(file_name, content)] rows of process [pid], in rowid order. *)
Definition documents_of (pid : Z) (d : db) : list (string * string) :=
  map (fun x => (doc_file_name x, doc_content x))
    (List.filter (fun x => Z.eqb (doc_process_id x) pid) (documents d)).

Lemma select_after_upsert (n title path t : string) (d : db) :
  exists pid, select_process_id n (upsert_process n title path t d) = Some pid.
Proof.
  unfold select_process_id.
  destruct (List.find _ _) as [row|] eqn:Hf; [eexists; reflexivity|].
  exfalso. pose proof (find_none _ _ Hf) as H. clear Hf. unfold upsert_process in H.
  destruct (existsb _ (processes d)) eqn:He; simpl in H.
  - apply existsb_exists in He as (row & Hin & Hrow).
    specialize (H (if String.eqb (p_number row) n then update_title_path title path row else row)).
    rewrite Hrow in H. simpl in H. apply String.eqb_eq in Hrow. rewrite Hrow, String.eqb_refl in H.
    apply Bool.diff_true_false, H, in_map_iff. exists row.
    rewrite Hrow, String.eqb_refl. auto.
  - match type of H with
    | forall x, In x (_ ++ [?new])%list -> _ => specialize (H new)
    end.
    simpl in H. rewrite String.eqb_refl in H. apply Bool.diff_true_false, H.
    apply in_or_app. right. left. reflexivity.
Qed.

Lemma events_of_insert_events (pid : Z) (evs : list event) (d : db) :
  events_of pid (insert_events (map (fun ev => (pid, ev.1, ev.2)) evs) d)
  = (events_of pid d ++ evs)%list.
Proof.
  unfold insert_events. revert d. induction evs as [|[date desc] evs IH]; intros d; simpl.
  - rewrite app_nil_r. reflexivity.
  - rewrite IH. unfold events_of. simpl. rewrite List.filter_app, map_app. simpl.
    rewrite Z.eqb_refl. simpl. rewrite <- app_assoc. reflexivity.
Qed.

Lemma events_of_insert_events_other (pid q : Z) (evs : list event) (d : db) :
  q <> pid ->
  events_of q (insert_events (map (fun ev => (pid, ev.1, ev.2)) evs) d) = events_of q d.
Proof.
  intros Hq. unfold insert_events. revert d. induction evs as [|[date desc] evs IH]; intros d;
    simpl; [reflexivity|].
  rewrite IH. unfold events_of. simpl. rewrite List.filter_app, map_app. simpl.
  destruct (Z.eqb_spec pid q); [congruence|]. rewrite app_nil_r. reflexivity.
Qed.

Lemma insert_events_documents (rows : list (Z * string * string)) (d : db) :
  documents (insert_events rows d) = documents d.
Proof.
  unfold insert_events. revert d. induction rows as [|[[pid date] desc] rows IH]; intros d;
    simpl; [reflexivity|]. rewrite IH. reflexivity.
Qed.

Lemma events_of_delete (pid q : Z) (d : db) :
  events_of q (delete_events pid d) = if Z.eqb q pid then [] else events_of q d.
Proof.
  unfold events_of, delete_events. simpl. destruct (Z.eqb_spec q pid) as [->|Hne].
  - induction (events d) as [|e es IH]; simpl; [reflexivity|].
    destruct (Z.eqb_spec (ev_process_id e) pid); simpl; [exact IH|].
    destruct (Z.eqb_spec (ev_process_id e) pid); [contradiction|exact IH].
  - f_equal. induction (events d) as [|e es IH]; simpl; [reflexivity|].
    destruct (Z.eqb_spec (ev_process_id e) pid) as [Heq|]; simpl.
    + rewrite IH. destruct (Z.eqb_spec (ev_process_id e) q); [congruence|reflexivity].
    + destruct (Z.eqb (ev_process_id e) q); rewrite IH; reflexivity.
Qed.

Lemma documents_of_delete (pid q : Z) (d : db) :
  documents_of q (delete_documents pid d) = if Z.eqb q pid then [] else documents_of q d.
Proof.
  unfold documents_of, delete_documents. simpl. destruct (Z.eqb_spec q pid) as [->|Hne].
  - induction (documents d) as [|e es IH]; simpl; [reflexivity|].
    destruct (Z.eqb_spec (doc_process_id e) pid); simpl; [exact IH|].
    destruct (Z.eqb_spec (doc_process_id e) pid); [contradiction|exact IH].
  - f_equal. induction (documents d) as [|e es IH]; simpl; [reflexivity|].
    destruct (Z.eqb_spec (doc_process_id e) pid) as [Heq|]; simpl.
    + rewrite IH. destruct (Z.eqb_spec (doc_process_id e) q); [congruence|reflexivity].
    + destruct (Z.eqb (doc_process_id e) q); rewrite IH; reflexivity.
Qed.

Lemma documents_of_insert (pid q : Z) (name content t : string) (d : db) :
  documents_of q (insert_document pid name content t d)
  = (documents_of q d ++ if Z.eqb pid q then [(name, content)] else [])%list.
Proof.
  unfold documents_of, insert_document. simpl. rewrite List.filter_app, map_app. simpl.
  destruct (Z.eqb pid q); reflexivity.
Qed.

(** Every statement runs when no fault is injected. *)
Ltac no_fault :=
  repeat match goal with
         | |- context [decide (None = Some ?s)] =>
             destruct (decide (None = Some s)) as [?|_]; [discriminate|]
         end.

Lemma get_process_id_ok (utc : nat -> string) (n title path : string) (c : conn) :
  let d1 := upsert_process n title path (utc (clock c)) (pending c) in
  exists pid, select_process_id n d1 = Some pid /\
    _get_process_id utc None n title path c
    = (Ok pid, {| committed := d1; pending := d1; clock := S (clock c) |}).
Proof.
  intros d1. destruct (select_after_upsert n title path (utc (clock c)) (pending c)) as [pid Hpid].
  exists pid. split; [exact Hpid|].
  unfold _get_process_id, mbind, M_bind, utcnow, exec, commit, query. cbn. no_fault.
  cbn. subst d1. rewrite Hpid. reflexivity.
Qed.

Lemma bind_ok {A B} (m : M A) (k : A -> M B) (c c' : conn) (a : A) :
  m c = (Ok a, c') -> (m ≫= k) c = k a c'.
Proof. intros H. unfold mbind, M_bind. rewrite H. reflexivity. Qed.

Lemma bind_raise {A B} (m : M A) (k : A -> M B) (c c' : conn) (e : exc) :
  m c = (Raise e, c') -> (m ≫= k) c = (Raise e, c').
Proof. intros H. unfold mbind, M_bind. rewrite H. reflexivity. Qed.

(** The store after one iteration in which no statement fails. *)
Definition replaced_store (utc : nat -> string) (r : import_result) (c : conn) (pid : Z) : db :=
  let d1 := upsert_process (ir_process_number r) (ir_title r)
              (path_str (ir_stored_dir r) (ir_stored_name r)) (utc (clock c)) (pending c) in
  insert_document pid (ir_stored_name r) (ir_document_text r) (utc (S (clock c)))
    (insert_events (map (fun ev => (pid, ev.1, ev.2)) (ir_events r))
       (delete_documents pid (delete_events pid d1))).

Lemma persist_one_ok (utc : nat -> string) (r : import_result) (c : conn) :
  exists pid,
    select_process_id (ir_process_number r)
      (upsert_process (ir_process_number r) (ir_title r)
         (path_str (ir_stored_dir r) (ir_stored_name r)) (utc (clock c)) (pending c)) = Some pid
    /\ persist_one utc None r c
       = (Ok tt, {| committed := replaced_store utc r c pid;
                    pending := replaced_store utc r c pid; clock := S (S (clock c)) |}).
Proof.
  destruct (get_process_id_ok utc (ir_process_number r) (ir_title r)
              (path_str (ir_stored_dir r) (ir_stored_name r)) c) as (pid & Hsel & Hget).
  exists pid. split; [exact Hsel|].
  unfold persist_one. rewrite (bind_ok _ _ _ _ _ Hget).
  unfold mbind, M_bind, exec, commit, utcnow. cbn. no_fault. cbn.
  unfold replaced_store. destruct (ir_events r); cbn; no_fault; reflexivity.
Qed.

Lemma replaced_store_processes (utc : nat -> string) (r : import_result) (c : conn) (pid : Z) :
  processes (replaced_store utc r c pid)
  = processes (upsert_process (ir_process_number r) (ir_title r)
                 (path_str (ir_stored_dir r) (ir_stored_name r)) (utc (clock c)) (pending c)).
Proof. unfold replaced_store. cbn. rewrite insert_events_processes. reflexivity. Qed.

Lemma persist_import_results_cons_ok (utc : nat -> string) (r : import_result)
  (rest : list (import_result * option stage)) (c c' : conn) :
  persist_one utc None r c = (Ok tt, c') ->
  persist_import_results utc ((r, None) :: rest) c = persist_import_results utc rest c'.
Proof. intros H. simpl. exact (bind_ok _ (fun _ => persist_import_results utc rest) _ _ _ H). Qed.

(** C2: when the iteration of [persist_import_results] for a result [r] completes,
    the committed store holds, for the process of [r]'s case number, exactly the
    parsed events of [r] in their parsed order and exactly one document row with
    the stored file name and the extracted text: whatever rows that process had
    before are gone. The rows of every other process are untouched, and the rest
    of the batch continues from this state. *)
Theorem persist_replaces_children (utc : nat -> string) (r : import_result) (c : conn)
  (rest : list (import_result * option stage)) :
  exists c' pid,
    persist_one utc None r c = (Ok tt, c') /\
    persist_import_results utc ((r, None) :: rest) c = persist_import_results utc rest c' /\
    committed c' = pending c' /\
    select_process_id (ir_process_number r) (committed c') = Some pid /\
    events_of pid (committed c') = ir_events r /\
    documents_of pid (committed c') = [(ir_stored_name r, ir_document_text r)] /\
    (forall q, q <> pid ->
       events_of q (committed c') = events_of q (pending c) /\
       documents_of q (committed c') = documents_of q (pending c)).
Proof.
  destruct (persist_one_ok utc r c) as (pid & Hsel & Hrun).
  eexists _, pid. split; [exact Hrun|].
  split; [apply persist_import_results_cons_ok; exact Hrun|].
  cbn [committed pending]. split; [reflexivity|].
  split; [unfold select_process_id in *; rewrite replaced_store_processes; exact Hsel|].
  unfold replaced_store.
  set (d1 := upsert_process _ _ _ _ _).
  assert (Hev : forall q, events_of q (insert_document pid (ir_stored_name r) (ir_document_text r)
                   (utc (S (clock c))) (insert_events (map (fun ev => (pid, ev.1, ev.2)) (ir_events r))
                   (delete_documents pid (delete_events pid d1))))
                 = events_of q (insert_events (map (fun ev => (pid, ev.1, ev.2)) (ir_events r))
                   (delete_documents pid (delete_events pid d1)))) by reflexivity.
  assert (Hd1e : forall q, events_of q d1 = events_of q (pending c)).
  { intros q. unfold d1, events_of, upsert_process.
    destruct (existsb _ _); reflexivity. }
  assert (Hd1d : forall q, documents_of q d1 = documents_of q (pending c)).
  { intros q. unfold d1, documents_of, upsert_process.
    destruct (existsb _ _); reflexivity. }
  assert (Hdd : forall q, events_of q (delete_documents pid (delete_events pid d1))
                          = events_of q (delete_events pid d1)) by reflexivity.
  split.
  { rewrite Hev, events_of_insert_events, Hdd, events_of_delete, Z.eqb_refl. reflexivity. }
  split.
  { rewrite documents_of_insert, Z.eqb_refl.
    unfold documents_of at 1. rewrite insert_events_documents. fold (documents_of pid (delete_documents pid (delete_events pid d1))).
    rewrite documents_of_delete, Z.eqb_refl. reflexivity. }
  intros q Hq. split.
  - rewrite Hev, events_of_insert_events_other by exact Hq.
    rewrite Hdd, events_of_delete.
    destruct (Z.eqb_spec q pid); [contradiction|]. apply Hd1e.
  - rewrite documents_of_insert. destruct (Z.eqb_spec pid q); [congruence|].
    rewrite app_nil_r.
    unfold documents_of at 1. rewrite insert_events_documents.
    fold (documents_of q (delete_documents pid (delete_events pid d1))).
    rewrite documents_of_delete. destruct (Z.eqb_spec q pid); [contradiction|].
    unfold documents_of, delete_events. cbn. apply Hd1d.
Qed.

(** ** Failures inside a batch *)

Lemma persist_import_results_app (utc : nat -> string)
  (l1 l2 : list (import_result * option stage)) (c : conn) :
  persist_import_results utc (l1 ++ l2) c
  = match persist_import_results utc l1 c with
    | (Ok _, c') => persist_import_results utc l2 c'
    | (Raise e, c') => (Raise e, c')
    end.
Proof.
  revert c. induction l1 as [|[r fault] l1 IH]; intros c; simpl; [reflexivity|].
  unfold mbind, M_bind.
  destruct (persist_one utc fault r c) as [[[]|e] c']; [apply IH|reflexivity].
Qed.

Definition no_faults (rs : list import_result) : list (import_result * option stage) :=
  map (fun r => (r, None)) rs.

Lemma persist_no_faults_ok (utc : nat -> string) (rs : list import_result) (c : conn) :
  committed c = pending c ->
  exists c0, persist_import_results utc (no_faults rs) c = (Ok tt, c0) /\
             committed c0 = pending c0.
Proof.
  revert c. induction rs as [|r rs IH]; intros c Hc; simpl.
  - exists c. split; [reflexivity|exact Hc].
  - destruct (persist_one_ok utc r c) as (pid & _ & Hrun).
    rewrite (bind_ok _ (fun _ => persist_import_results utc (no_faults rs)) _ _ _ Hrun).
    apply IH. reflexivity.
Qed.

Lemma upsert_children (n title path t : string) (d : db) :
  events (upsert_process n title path t d) = events d /\
  documents (upsert_process n title path t d) = documents d.
Proof. unfold upsert_process. destruct (existsb _ _); split; reflexivity. Qed.

Lemma persist_one_fail (utc : nat -> string) (fault : option stage) (r : import_result)
  (c c1 : conn) (e : exc) :
  committed c = pending c ->
  persist_one utc fault r c = (Raise e, c1) ->
  committed c1 = committed c \/
  committed c1 = upsert_process (ir_process_number r) (ir_title r)
                   (path_str (ir_stored_dir r) (ir_stored_name r)) (utc (clock c)) (committed c).
Proof.
  intros Hc H.
  unfold persist_one, _get_process_id, mbind, M_bind, utcnow, exec, commit, query, raise,
    mret, M_ret in H.
  cbn in H.
  repeat (match type of H with
          | context [decide ?P] => destruct (decide P)
          | context [match ?s with None => _ | Some _ => _ end] =>
              match s with select_process_id _ _ => destruct s end
          | context [match map _ (ir_events r) with [] => _ | _ :: _ => _ end] =>
              destruct (ir_events r)
          end; cbn in H).
  all: first [discriminate H | injection H as <- <-; cbn; rewrite ?Hc; auto].
Qed.

(** The title stored for case number [n]. *)
Definition title_of (n : string) (d : db) : option string :=
  p_title <$> List.find (fun row => String.eqb (p_number row) n) (processes d).

(** C8 (counterexample): a batch of two results for the same case number, the
    second failing at [DELETE FROM events]. The failing result's upsert was already
    committed by [_get_process_id], so after the failure the stored title is the
    failing result's ["B"], not the ["A"] committed by the earlier result. *)
Lemma failed_result_overwrites_earlier_title :
  let '(r0, c0) := persist_import_results (fun _ => "t") [(result_a, None)] empty_conn in
  let '(r1, c1) := persist_import_results (fun _ => "t")
                     [(result_a, None); (result_b, Some SDeleteEvents)] empty_conn in
  r0 = Ok tt /\ title_of (ir_process_number result_a) (committed c0) = Some "A" /\
  r1 = Raise DB_FAILURE /\ title_of (ir_process_number result_a) (committed c1) = Some "B".
Proof. vm_compute. repeat split. Qed.

(** C8: results are committed one after the other. Let the results before [r]
    all be persisted without failure, ending in connection [c0]; if persisting
    [r] then raises, the whole call raises that error, and the committed store
    keeps every event row and document row of [c0]'s committed store unchanged,
    keeps every process row with its id, case number and creation time, and is
    either that store itself or that store with [r]'s own process upsert
    (title and source path of [r]) applied: the statements of [r] after its
    upsert's commit are lost, the upsert is not. *)
Theorem persist_failure_keeps_earlier (utc : nat -> string) (pre : list import_result)
  (r : import_result) (fault : option stage) (post : list (import_result * option stage))
  (c : conn) (Hc : committed c = pending c) :
  exists c0,
    persist_import_results utc (no_faults pre) c = (Ok tt, c0) /\
    forall e c1, persist_one utc fault r c0 = (Raise e, c1) ->
      persist_import_results utc (no_faults pre ++ (r, fault) :: post) c = (Raise e, c1) /\
      events (committed c1) = events (committed c0) /\
      documents (committed c1) = documents (committed c0) /\
      keeps_rows (committed c0) (committed c1) /\
      (committed c1 = committed c0 \/
       committed c1 = upsert_process (ir_process_number r) (ir_title r)
                        (path_str (ir_stored_dir r) (ir_stored_name r)) (utc (clock c0))
                        (committed c0)).
Proof.
  destruct (persist_no_faults_ok utc pre c Hc) as (c0 & Hrun & Hc0).
  exists c0. split; [exact Hrun|]. intros e c1 Hfail.
  split.
  { rewrite persist_import_results_app, Hrun. simpl.
    rewrite (bind_raise _ (fun _ => persist_import_results utc post) _ _ _ Hfail). reflexivity. }
  destruct (persist_one_fail utc fault r c0 c1 e Hc0 Hfail) as [Heq|Heq];
    rewrite Heq.
  - split; [reflexivity|]. split; [reflexivity|]. split; [apply keeps_rows_refl|]. left; reflexivity.
  - destruct (upsert_children (ir_process_number r) (ir_title r)
                (path_str (ir_stored_dir r) (ir_stored_name r)) (utc (clock c0)) (committed c0))
      as [He Hd].
    split; [exact He|]. split; [exact Hd|]. split; [apply upsert_keeps_rows|]. right; reflexivity.
Qed.

Lemma persist_failure_keeps_earlier_witness :
  committed empty_conn = pending empty_conn /\
  exists c0,
    persist_import_results (fun _ => "t") (no_faults [result_a]) empty_conn = (Ok tt, c0) /\
    forall e c1, persist_one (fun _ => "t") (Some SDeleteEvents) result_b c0 = (Raise e, c1) ->
      persist_import_results (fun _ => "t")
        (no_faults [result_a] ++ [(result_b, Some SDeleteEvents)]) empty_conn = (Raise e, c1) /\
      events (committed c1) = events (committed c0) /\
      documents (committed c1) = documents (committed c0) /\
      keeps_rows (committed c0) (committed c1) /\
      (committed c1 = committed c0 \/
       committed c1 = upsert_process (ir_process_number result_b) (ir_title result_b)
                        (path_str (ir_stored_dir result_b) (ir_stored_name result_b))
                        ((fun _ => "t") (clock c0)) (committed c0)).
Proof.
  assert (H1 : committed empty_conn = pending empty_conn) by reflexivity.
  split; [exact H1|].
  exact (persist_failure_keeps_earlier (fun _ => "t") [result_a] result_b (Some SDeleteEvents) []
           empty_conn H1).
Defined.

(** C3: [\s+] in [MOVEMENT_RE] also matches line feeds, so a date at the end of
    one line and a [- description] on the next form one event, although no line
    of the text has the dash form and no line has the bare-date form: read line
    by line, the text has no event. *)
Theorem parse_events_match_spans_lines :
  let text := ("01/02/2024" ++ String NL "- foo")%string in
  _parse_events text = [("01/02/2024", "foo")] /\ spec_line_events text = [].
Proof. vm_compute. split; reflexivity. Qed.

(* ------------------------------------------------------------------ *)
(** ** The entry point's error line *)

Definition printable (c : ascii) : bool :=
  (32 <=? nat_of_ascii c) && (nat_of_ascii c <=? 126).

Lemma json_escape_char_printable (c : ascii) : forallb printable (json_escape_char c) = true.
Proof. destruct c as [[] [] [] [] [] [] [] []]; reflexivity. Qed.

Lemma json_escape_char_read (c : ascii) (rest : list ascii) :
  json_read_string (json_escape_char c ++ rest)%list
  = match json_read_string rest with Some (m, r) => Some (c :: m, r) | None => None end.
Proof. destruct c as [[] [] [] [] [] [] [] []]; reflexivity. Qed.

Lemma json_body_read (s rest : list ascii) :
  json_read_string (flat_map json_escape_char s ++ DQ :: rest)%list = Some (s, rest).
Proof.
  induction s as [|c s IH]; [reflexivity|].
  simpl. rewrite <- app_assoc, json_escape_char_read, IH. reflexivity.
Qed.

Lemma error_payload_printable (message : string) :
  forallb printable (error_payload message) = true.
Proof.
  unfold error_payload, json_dumps_str.
  rewrite !forallb_app. simpl. rewrite forallb_app. simpl.
  assert (H : forall l, forallb printable (flat_map json_escape_char l) = true).
  { induction l as [|c l IH]; [reflexivity|]. simpl.
    rewrite forallb_app, json_escape_char_printable, IH. reflexivity. }
  rewrite H. reflexivity.
Qed.

Lemma error_payload_read (message : string) :
  read_error_payload (error_payload message) = Some message.
Proof.
  unfold read_error_payload, error_payload, json_dumps_str. cbn [strip_prefix app].
  rewrite <- app_assoc. simpl. rewrite json_body_read. simpl. rewrite string_of_list_ascii_of_string. reflexivity.
Qed.

(** The script's outcome: a successful [main] exits with status 0 and prints
    nothing; a [BuildDbError], [PdfTextExtractionError] included, makes it
    print exactly one line and exit with status 1, the line being printable
    ASCII that reads back as a JSON object whose ["error"] member is the
    exception's message; any other exception ([sqlite3] errors, [OSError])
    escapes the script uncaught.  Files and database are those [main] left. *)
Theorem cli_outcome_spec (E : env) (source_dir : string) (source_kind : option entry)
  (w : fs) (store : option db) :
  let '(o, w', st) := cli E source_dir source_kind w store in
  let '(r, w0, st0) := main E source_dir source_kind w store in
  w' = w0 /\ st = st0 /\
  match r with
  | Ok _ => o = CliExit 0 []
  | Raise e =>
      if is_build_db_error e then
        exists line, o = CliExit 1 (line ++ [NL])%list /\ forallb printable line = true /\
                     read_error_payload line = Some (exc_message e)
      else o = CliUncaught e
  end.
Proof.
  unfold cli. destruct (main E source_dir source_kind w store) as [[[u|e] w0] st0].
  - auto.
  - destruct (is_build_db_error e); repeat split; auto.
    exists (error_payload (exc_message e)).
    split; [reflexivity|]. split; [apply error_payload_printable|apply error_payload_read].
Qed.

(** [main] with a source path that does not exist or is not a directory
    raises [BuildDbError] naming the path, before anything is read, copied or
    opened: the files are unchanged and the database stays as it was (none is
    created).  The script then prints that message as its JSON error line and
    exits with status 1. *)
Theorem main_rejects_non_directory (E : env) (source_dir : string) (source_kind : option entry)
  (w : fs) (store : option db) (Hnd : source_kind <> Some EDir) :
  main E source_dir source_kind w store
  = (Raise (BuildDbError (INVALID_SOURCE source_dir)), w, store) /\
  cli E source_dir source_kind w store
  = (CliExit 1 (error_payload (INVALID_SOURCE source_dir) ++ [NL])%list, w, store).
Proof.
  assert (Hm : main E source_dir source_kind w store
               = (Raise (BuildDbError (INVALID_SOURCE source_dir)), w, store)).
  { unfold main. destruct source_kind as [[]|]; try reflexivity. contradiction. }
  split; [exact Hm|]. unfold cli. rewrite Hm. reflexivity.
Qed.

(* ------------------------------------------------------------------ *)
(** ** Shape of the parsed events *)

Lemma lstrip_cons (c : ascii) (s : list ascii) :
  lstrip (c :: s) = if is_space c then lstrip s else c :: s.
Proof. reflexivity. Qed.

Lemma lstrip_suffix (s : list ascii) : exists p, s = (p ++ lstrip s)%list.
Proof.
  induction s as [|c s [p Hp]]; [exists []; reflexivity|].
  rewrite lstrip_cons. destruct (is_space c).
  - exists (c :: p). simpl. rewrite <- Hp. reflexivity.
  - exists []. reflexivity.
Qed.

Lemma lstrip_head (s : list ascii) :
  lstrip s = [] \/ exists c l, lstrip s = c :: l /\ is_space c = false.
Proof.
  induction s as [|c s IH]; [left; reflexivity|].
  rewrite lstrip_cons. destruct (is_space c) eqn:Hc; [exact IH|].
  right. exists c, s. auto.
Qed.

Lemma lstrip_fixed (s : list ascii) :
  (forall c l, s = c :: l -> is_space c = false) -> lstrip s = s.
Proof.
  destruct s as [|c s]; intros H; [reflexivity|].
  rewrite lstrip_cons, (H c s eq_refl). reflexivity.
Qed.

Lemma lstrip_idem (s : list ascii) : lstrip (lstrip s) = lstrip s.
Proof.
  apply lstrip_fixed. intros c l Hs.
  destruct (lstrip_head s) as [He|(c' & l' & He & Hc)]; rewrite He in Hs; [discriminate|].
  injection Hs as <- <-. exact Hc.
Qed.

Lemma lstrip_strip (s : list ascii) : lstrip (strip s) = strip s.
Proof.
  unfold strip. apply lstrip_fixed. intros c l Hs.
  destruct (lstrip_suffix (rev (lstrip s))) as [p Hp].
  assert (Ht : lstrip s = (rev (lstrip (rev (lstrip s))) ++ rev p)%list).
  { rewrite <- rev_app_distr, <- Hp, rev_involutive. reflexivity. }
  rewrite Hs in Ht. simpl in Ht.
  destruct (lstrip_head s) as [He|(c' & l' & He & Hc)]; rewrite He in Ht; [discriminate|].
  injection Ht as <- _. exact Hc.
Qed.

Lemma strip_idem (s : list ascii) : strip (strip s) = strip s.
Proof.
  unfold strip at 1. rewrite lstrip_strip. unfold strip.
  rewrite rev_involutive, lstrip_idem. reflexivity.
Qed.

Lemma strip_incl (s : list ascii) (x : ascii) : In x (strip s) -> In x s.
Proof.
  unfold strip. intros H. apply in_rev in H.
  destruct (lstrip_suffix (rev (lstrip s))) as [p Hp].
  destruct (lstrip_suffix s) as [q Hq].
  rewrite Hq. apply in_or_app. right. apply in_rev. rewrite Hp. apply in_or_app. right. exact H.
Qed.

Lemma take_run_length (cls : ascii -> bool) (i : nat) (s : list ascii) :
  i <= run_length cls s -> Forall (fun c => cls c = true) (take i s).
Proof.
  revert i. induction s as [|c s IH]; intros i Hi; simpl in *.
  - rewrite take_nil. constructor.
  - destruct i as [|i]; [constructor|]. simpl.
    destruct (cls c) eqn:Hc; [|lia]. constructor; [exact Hc|]. apply IH. lia.
Qed.

Lemma backtrack_some {X} (k : list ascii -> list ascii -> option X) (s : list ascii)
  (min c : nat) (x : X) :
  backtrack k s min c = Some x -> exists i, i <= c /\ k (take i s) (drop i s) = Some x.
Proof.
  induction c as [|c IH]; simpl; intros H.
  - destruct (min <=? 0); [|discriminate].
    destruct (k (take 0 s) (drop 0 s)) eqn:E; [|discriminate]. exists 0. split; [lia|congruence].
  - destruct (min <=? S c); [destruct (k (take (S c) s) (drop (S c) s)) eqn:E|].
    + exists (S c). split; [lia|congruence].
    + destruct (IH H) as (i & Hi & Hk). exists i. split; [lia|exact Hk].
    + destruct (IH H) as (i & Hi & Hk). exists i. split; [lia|exact Hk].
Qed.

Lemma greedy_some {X} (cls : ascii -> bool) (min : nat)
  (k : list ascii -> list ascii -> option X) (s : list ascii) (x : X) :
  greedy cls min k s = Some x ->
  exists i, Forall (fun c => cls c = true) (take i s) /\ k (take i s) (drop i s) = Some x.
Proof.
  unfold greedy. intros H. destruct (backtrack_some _ _ _ _ _ H) as (i & Hi & Hk).
  exists i. split; [apply take_run_length; exact Hi|exact Hk].
Qed.

(** What a match of either pattern yields: a [DD/MM/YYYY] date and a group
    without line feed. *)
Definition groups_ok (g : list ascii * list ascii) : Prop :=
  items_ok DATE_ITEMS g.1 /\ Forall (fun c => not_nl c = true) g.2.

Lemma movement_here_groups (s : list ascii) g r :
  movement_here s = Some (g, r) -> groups_ok g.
Proof.
  unfold movement_here. destruct (match_items DATE_ITEMS s) as [[date r1]|] eqn:Hd;
    [|discriminate].
  intros H. apply greedy_some in H as (i & _ & H).
  destruct (drop i r1) as [|c r3]; [discriminate|].
  destruct (is_dash c); [|discriminate].
  apply greedy_some in H as (j & _ & H).
  apply greedy_some in H as (l & Hl & H).
  destruct (at_eol _); [|discriminate]. injection H as <- _.
  split; [apply match_items_spec in Hd as [_ Hd]; exact Hd|exact Hl].
Qed.

Lemma fallback_here_groups (s : list ascii) g r :
  fallback_here s = Some (g, r) -> groups_ok g.
Proof.
  unfold fallback_here. destruct (match_items DATE_ITEMS s) as [[date r1]|] eqn:Hd;
    [|discriminate].
  intros H. apply greedy_some in H as (i & _ & H).
  apply greedy_some in H as (l & Hl & H).
  destruct (at_eol _); [|discriminate]. injection H as <- _.
  split; [apply match_items_spec in Hd as [_ Hd]; exact Hd|exact Hl].
Qed.

Lemma finditer_forall {X} (P : X -> Prop) (m : list ascii -> option (X * list ascii)) :
  (forall s x r, m s = Some (x, r) -> P x) ->
  forall fuel bol s, Forall P (finditer m fuel bol s).
Proof.
  intros Hm fuel. induction fuel as [|fuel IH]; intros bol s; simpl; [constructor|].
  destruct (if bol then m s else None) as [[x rest]|] eqn:E.
  - constructor; [|apply IH]. destruct bol; [|discriminate]. exact (Hm _ _ _ E).
  - destruct s; [constructor|apply IH].
Qed.

Lemma to_event_shape (g : list ascii * list ascii) :
  groups_ok g ->
  let ev := to_event g in
  match_items DATE_ITEMS (list_ascii_of_string ev.1) = Some (list_ascii_of_string ev.1, []) /\
  strip (list_ascii_of_string ev.2) = list_ascii_of_string ev.2 /\
  ~ In NL (list_ascii_of_string ev.2).
Proof.
  intros [Hd Hn]. unfold to_event. cbn [fst snd]. rewrite !list_ascii_of_string_of_list_ascii.
  split; [apply match_items_spec; rewrite app_nil_r; auto|].
  split; [apply strip_idem|].
  intros Hin. apply strip_incl in Hin. rewrite List.Forall_forall in Hn.
  specialize (Hn NL Hin). discriminate.
Qed.

(** Every event [_parse_events] returns, from either pattern, has a date of
    the form [DD/MM/YYYY] (two digits, a slash, two digits, a slash, four
    digits) and a description with no leading or trailing whitespace and no
    line feed. *)
Theorem parse_events_shape (text : string) :
  Forall (fun ev : event =>
     match_items DATE_ITEMS (list_ascii_of_string ev.1) = Some (list_ascii_of_string ev.1, []) /\
     strip (list_ascii_of_string ev.2) = list_ascii_of_string ev.2 /\
     ~ In NL (list_ascii_of_string ev.2))
    (_parse_events text).
Proof.
  assert (H : forall m, (forall s g r, m s = Some (g, r) -> groups_ok g) ->
              forall s, Forall (fun ev : event =>
     match_items DATE_ITEMS (list_ascii_of_string ev.1) = Some (list_ascii_of_string ev.1, []) /\
     strip (list_ascii_of_string ev.2) = list_ascii_of_string ev.2 /\
     ~ In NL (list_ascii_of_string ev.2)) (map to_event (finditer_all m s))).
  { intros m Hm s. apply Forall_map. unfold finditer_all.
    apply (List.Forall_impl (P := groups_ok)); [intros g Hg; exact (to_event_shape g Hg)|].
    apply finditer_forall. exact Hm. }
  unfold _parse_events.
  destruct (map to_event (finditer_all movement_here _)) as [|e es] eqn:E.
  - apply H. intros s g r. apply fallback_here_groups.
  - rewrite <- E. apply H. intros s g r. apply movement_here_groups.
Qed.

(* ------------------------------------------------------------------ *)
(** ** A whole batch: the last result of each case number wins *)

(** The row [SELECT ... FROM processes WHERE number = ?] finds. *)
Definition row_of (n : string) (d : db) : option process_row :=
  List.find (fun row => String.eqb (p_number row) n) (processes d).

(** The last result of the batch bearing case number [n]. *)
Definition last_result (n : string) (rs : list import_result) : option import_result :=
  last (List.filter (fun r => String.eqb (ir_process_number r) n) rs).

(** The [PRIMARY KEY] of [processes]: no two rows share an id. *)
Definition ids_unique (d : db) : Prop := List.NoDup (map p_id (processes d)).

Lemma find_app {A} (f : A -> bool) (l1 l2 : list A) :
  List.find f (l1 ++ l2) = match List.find f l1 with Some x => Some x | None => List.find f l2 end.
Proof. induction l1 as [|a l1 IH]; simpl; [reflexivity|]. destruct (f a); auto. Qed.

Lemma find_map_number (n : string) (f : process_row -> process_row) (ps : list process_row) :
  (forall r, p_number (f r) = p_number r) ->
  List.find (fun row => String.eqb (p_number row) n) (map f ps)
  = f <$> List.find (fun row => String.eqb (p_number row) n) ps.
Proof.
  intros Hf. induction ps as [|r ps IH]; simpl; [reflexivity|].
  rewrite Hf. destruct (String.eqb (p_number r) n); [reflexivity|exact IH].
Qed.

Lemma find_number (n : string) (ps : list process_row) (row : process_row) :
  List.find (fun row => String.eqb (p_number row) n) ps = Some row ->
  In row ps /\ p_number row = n.
Proof.
  intros H. pose proof (find_some _ _ H) as [Hin Heq]. apply String.eqb_eq in Heq. auto.
Qed.

Lemma existsb_find_none (n : string) (ps : list process_row) :
  existsb (fun r => String.eqb (p_number r) n) ps = false ->
  List.find (fun row => String.eqb (p_number row) n) ps = None.
Proof.
  induction ps as [|r ps IH]; simpl; [reflexivity|].
  destruct (String.eqb (p_number r) n); [discriminate|exact IH].
Qed.

Lemma existsb_find_some (n : string) (ps : list process_row) :
  existsb (fun r => String.eqb (p_number r) n) ps = true ->
  exists row, List.find (fun row => String.eqb (p_number row) n) ps = Some row.
Proof.
  induction ps as [|r ps IH]; simpl; [discriminate|].
  destruct (String.eqb (p_number r) n); [eauto|exact IH].
Qed.

Lemma next_rowid_gt (seq : Z) (ids : list Z) (x : Z) : In x ids -> (x < next_rowid seq ids)%Z.
Proof.
  unfold next_rowid. induction ids as [|i ids IH]; simpl; [contradiction|].
  intros [->|Hin]; [lia|]. specialize (IH Hin). lia.
Qed.

(** The new row an upsert appends when the number is not in the table. *)
Definition new_process_row (n title path t : string) (d : db) : process_row :=
  {| p_id := next_rowid (seq_processes d) (map p_id (processes d)); p_number := n;
     p_title := title; p_pdf_path := path; p_created_at := t |}.

Lemma row_of_upsert_same (n title path t : string) (d : db) :
  row_of n (upsert_process n title path t d)
  = Some (match row_of n d with
          | Some row0 => update_title_path title path row0
          | None => new_process_row n title path t d
          end).
Proof.
  unfold row_of, upsert_process.
  destruct (existsb _ (processes d)) eqn:He; simpl.
  - rewrite find_map_number by (intros r; destruct (String.eqb (p_number r) n); reflexivity).
    destruct (existsb_find_some _ _ He) as [row0 Hrow]. rewrite Hrow. simpl.
    apply find_number in Hrow as [_ Hn]. rewrite Hn, String.eqb_refl. reflexivity.
  - rewrite find_app, (existsb_find_none _ _ He). simpl. rewrite String.eqb_refl. reflexivity.
Qed.

Lemma row_of_upsert_other (n m title path t : string) (d : db) :
  n <> m -> row_of n (upsert_process m title path t d) = row_of n d.
Proof.
  intros Hnm. unfold row_of, upsert_process.
  destruct (existsb _ (processes d)) eqn:He; simpl.
  - rewrite find_map_number by (intros r; destruct (String.eqb (p_number r) m); reflexivity).
    destruct (List.find _ (processes d)) as [row0|] eqn:Hrow; [|reflexivity]. simpl.
    apply find_number in Hrow as [_ Hn].
    destruct (String.eqb_spec (p_number row0) m); [congruence|reflexivity].
  - rewrite find_app. destruct (List.find _ (processes d)); [reflexivity|]. simpl.
    destruct (String.eqb_spec m n); [congruence|reflexivity].
Qed.

Lemma ids_unique_upsert (n title path t : string) (d : db) :
  ids_unique d -> ids_unique (upsert_process n title path t d).
Proof.
  unfold ids_unique, upsert_process. intros Hd.
  destruct (existsb _ (processes d)); simpl.
  - rewrite map_map.
    replace (map (fun x => p_id (if String.eqb (p_number x) n then update_title_path title path x else x))
                 (processes d)) with (map p_id (processes d)); [exact Hd|].
    apply map_ext. intros r. destruct (String.eqb (p_number r) n); reflexivity.
  - rewrite map_app. simpl. apply NoDup_ListNoDup, NoDup_app.
    split; [apply NoDup_ListNoDup; exact Hd|]. split; [|apply NoDup_singleton].
    intros x Hx Hy. apply list_elem_of_singleton in Hy. subst x.
    apply list_elem_of_In in Hx.
    pose proof (next_rowid_gt (seq_processes d) _ _ Hx). lia.
Qed.

Lemma NoDup_map_inj {A B} (f : A -> B) (l : list A) (x y : A) :
  List.NoDup (map f l) -> In x l -> In y l -> f x = f y -> x = y.
Proof.
  induction l as [|a l IH]; simpl; [contradiction|].
  intros Hnd Hx Hy Hf. inversion Hnd as [|? ? Hnot Hnd']; subst.
  destruct Hx as [<-|Hx], Hy as [<-|Hy]; auto.
  - exfalso. apply Hnot. rewrite Hf. apply in_map. exact Hy.
  - exfalso. apply Hnot. rewrite <- Hf. apply in_map. exact Hx.
Qed.

(** The id the upsert of [m] leads to differs from the id of the row of any
    other number. *)
Lemma upsert_id_other (n m title path t : string) (d : db) (row0 : process_row) :
  ids_unique d -> n <> m -> row_of n d = Some row0 ->
  p_id (match row_of m d with
        | Some rowm => update_title_path title path rowm
        | None => new_process_row m title path t d
        end) <> p_id row0.
Proof.
  intros Hid Hnm H0. unfold row_of in *. apply find_number in H0 as [Hin0 Hn0].
  destruct (List.find _ (processes d)) as [rowm|] eqn:Hm; simpl.
  - apply find_number in Hm as [Hinm Hnm']. intros Heq.
    pose proof (NoDup_map_inj p_id _ _ _ Hid Hinm Hin0 Heq). congruence.
  - pose proof (next_rowid_gt (seq_processes d) _ _ (in_map p_id _ _ Hin0)). lia.
Qed.

Lemma replaced_store_children (utc : nat -> string) (r : import_result) (c : conn) (pid : Z) :
  events_of pid (replaced_store utc r c pid) = ir_events r /\
  documents_of pid (replaced_store utc r c pid) = [(ir_stored_name r, ir_document_text r)] /\
  (forall q, q <> pid ->
     events_of q (replaced_store utc r c pid) = events_of q (pending c) /\
     documents_of q (replaced_store utc r c pid) = documents_of q (pending c)).
Proof.
  unfold replaced_store.
  set (d1 := upsert_process _ _ _ _ _).
  assert (Hev : forall q, events_of q (insert_document pid (ir_stored_name r) (ir_document_text r)
                   (utc (S (clock c))) (insert_events (map (fun ev => (pid, ev.1, ev.2)) (ir_events r))
                   (delete_documents pid (delete_events pid d1))))
                 = events_of q (insert_events (map (fun ev => (pid, ev.1, ev.2)) (ir_events r))
                   (delete_documents pid (delete_events pid d1)))) by reflexivity.
  assert (Hd1e : forall q, events_of q d1 = events_of q (pending c)).
  { intros q. unfold d1, events_of, upsert_process.
    destruct (existsb _ _); reflexivity. }
  assert (Hd1d : forall q, documents_of q d1 = documents_of q (pending c)).
  { intros q. unfold d1, documents_of, upsert_process.
    destruct (existsb _ _); reflexivity. }
  assert (Hdd : forall q, events_of q (delete_documents pid (delete_events pid d1))
                          = events_of q (delete_events pid d1)) by reflexivity.
  split.
  { rewrite Hev, events_of_insert_events, Hdd, events_of_delete, Z.eqb_refl. reflexivity. }
  split.
  { rewrite documents_of_insert, Z.eqb_refl.
    unfold documents_of at 1. rewrite insert_events_documents. fold (documents_of pid (delete_documents pid (delete_events pid d1))).
    rewrite documents_of_delete, Z.eqb_refl. reflexivity. }
  intros q Hq. split.
  - rewrite Hev, events_of_insert_events_other by exact Hq.
    rewrite Hdd, events_of_delete.
    destruct (Z.eqb_spec q pid); [contradiction|]. apply Hd1e.
  - rewrite documents_of_insert. destruct (Z.eqb_spec pid q); [congruence|].
    rewrite app_nil_r.
    unfold documents_of at 1. rewrite insert_events_documents.
    fold (documents_of q (delete_documents pid (delete_events pid d1))).
    rewrite documents_of_delete. destruct (Z.eqb_spec q pid); [contradiction|].
    unfold documents_of, delete_events. cbn. apply Hd1d.
Qed.

(** One iteration of [persist_import_results] without failure, seen through
    [row_of]. *)
Lemma persist_step (utc : nat -> string) (r : import_result) (c0 : conn)
  (Hc0 : committed c0 = pending c0) (Hid : ids_unique (pending c0)) :
  exists c1 row,
    persist_one utc None r c0 = (Ok tt, c1) /\ committed c1 = pending c1 /\
    ids_unique (pending c1) /\
    row_of (ir_process_number r) (committed c1) = Some row /\
    p_title row = ir_title r /\
    p_pdf_path row = path_str (ir_stored_dir r) (ir_stored_name r) /\
    events_of (p_id row) (committed c1) = ir_events r /\
    documents_of (p_id row) (committed c1) = [(ir_stored_name r, ir_document_text r)] /\
    (forall row0, row_of (ir_process_number r) (committed c0) = Some row0 ->
       p_id row = p_id row0 /\ p_created_at row = p_created_at row0) /\
    (forall n, n <> ir_process_number r ->
       row_of n (committed c1) = row_of n (committed c0) /\
       forall row0, row_of n (committed c0) = Some row0 ->
         events_of (p_id row0) (committed c1) = events_of (p_id row0) (committed c0) /\
         documents_of (p_id row0) (committed c1) = documents_of (p_id row0) (committed c0)).
Proof.
  destruct (persist_one_ok utc r c0) as (pid & Hsel & Hrun).
  pose proof (row_of_upsert_same (ir_process_number r) (ir_title r)
                (path_str (ir_stored_dir r) (ir_stored_name r)) (utc (clock c0)) (pending c0))
    as Hrow.
  set (row := match row_of (ir_process_number r) (pending c0) with
              | Some row0 => update_title_path (ir_title r)
                               (path_str (ir_stored_dir r) (ir_stored_name r)) row0
              | None => new_process_row (ir_process_number r) (ir_title r)
                          (path_str (ir_stored_dir r) (ir_stored_name r)) (utc (clock c0)) (pending c0)
              end) in Hrow.
  assert (Hpid : pid = p_id row).
  { unfold select_process_id in Hsel. unfold row_of in Hrow. rewrite Hrow in Hsel.
    injection Hsel as <-. reflexivity. }
  subst pid.
  destruct (replaced_store_children utc r c0 (p_id row)) as (He & Hd & Hq).
  assert (Hrows : forall n, row_of n (replaced_store utc r c0 (p_id row))
                  = row_of n (upsert_process (ir_process_number r) (ir_title r)
                      (path_str (ir_stored_dir r) (ir_stored_name r)) (utc (clock c0)) (pending c0))).
  { intros n. unfold row_of. rewrite replaced_store_processes. reflexivity. }
  eexists _, row. split; [exact Hrun|]. cbn [committed pending].
  split; [reflexivity|].
  split; [unfold ids_unique; rewrite replaced_store_processes; apply ids_unique_upsert; exact Hid|].
  split; [rewrite Hrows; exact Hrow|].
  split; [unfold row; destruct (row_of _ _); reflexivity|].
  split; [unfold row; destruct (row_of _ _); reflexivity|].
  split; [exact He|]. split; [exact Hd|].
  split.
  { intros row0 H0. rewrite Hc0 in H0. unfold row. rewrite H0. split; reflexivity. }
  intros n Hn. rewrite Hc0. split.
  - rewrite Hrows. apply row_of_upsert_other. exact Hn.
  - intros row0 H0. apply Hq. intros Heq.
    exact (upsert_id_other n (ir_process_number r) (ir_title r)
             (path_str (ir_stored_dir r) (ir_stored_name r)) (utc (clock c0)) (pending c0) row0
             Hid Hn H0 (eq_sym Heq)).
Qed.

Lemma last_result_snoc (n : string) (rs : list import_result) (r : import_result) :
  last_result n (rs ++ [r])%list
  = if String.eqb (ir_process_number r) n then Some r else last_result n rs.
Proof.
  unfold last_result. rewrite List.filter_app. simpl.
  destruct (String.eqb (ir_process_number r) n).
  - apply last_snoc.
  - rewrite app_nil_r. reflexivity.
Qed.

(** What a store [d] reached from [d0] by a batch [rs] shows for each case
    number. *)
Definition batch_view (rs : list import_result) (d0 d : db) : Prop :=
  forall n,
    match last_result n rs with
    | Some r =>
        exists row, row_of n d = Some row /\ p_title row = ir_title r /\
          p_pdf_path row = path_str (ir_stored_dir r) (ir_stored_name r) /\
          events_of (p_id row) d = ir_events r /\
          documents_of (p_id row) d = [(ir_stored_name r, ir_document_text r)] /\
          (forall row0, row_of n d0 = Some row0 ->
             p_id row = p_id row0 /\ p_created_at row = p_created_at row0)
    | None =>
        row_of n d = row_of n d0 /\
        forall row0, row_of n d0 = Some row0 ->
          events_of (p_id row0) d = events_of (p_id row0) d0 /\
          documents_of (p_id row0) d = documents_of (p_id row0) d0
    end.

Lemma persist_batch_view (utc : nat -> string) (rs : list import_result) (c : conn)
  (Hc : committed c = pending c) (Hid : ids_unique (committed c)) :
  exists c', persist_import_results utc (no_faults rs) c = (Ok tt, c') /\
    committed c' = pending c' /\ ids_unique (pending c') /\
    batch_view rs (committed c) (committed c').
Proof.
  induction rs as [|r rs IH] using rev_ind.
  - exists c. split; [reflexivity|]. split; [exact Hc|]. split; [rewrite <- Hc; exact Hid|].
    intros n. split; [reflexivity|]. intros row0 _. split; reflexivity.
  - destruct IH as (c0 & Hrun0 & Hc0 & Hid0 & Hview).
    destruct (persist_step utc r c0 Hc0 Hid0)
      as (c1 & row & Hrun1 & Hc1 & Hid1 & Hrow & Ht & Hp & He & Hd & Hcr & Hother).
    exists c1. split.
    { unfold no_faults. rewrite map_app. fold (no_faults rs).
      rewrite persist_import_results_app, Hrun0. simpl.
      rewrite (bind_ok _ (fun _ => mret tt) _ _ _ Hrun1). reflexivity. }
    split; [exact Hc1|]. split; [exact Hid1|].
    intros n. specialize (Hview n). rewrite last_result_snoc.
    destruct (String.eqb_spec (ir_process_number r) n) as [<-|Hne].
    + exists row. do 5 (split; [assumption|]).
      intros row0 H0. destruct (last_result (ir_process_number r) rs) as [r'|].
      * destruct Hview as (rowX & HX & _ & _ & _ & _ & HXc).
        destruct (HXc row0 H0) as [Hi1 Hc1']. destruct (Hcr rowX HX) as [Hi2 Hc2].
        split; congruence.
      * destruct Hview as [Heq _]. apply Hcr. rewrite Heq. exact H0.
    + destruct (Hother n (not_eq_sym Hne)) as [Hrn Hev].
      destruct (last_result n rs) as [r'|].
      * destruct Hview as (rowX & HX & HXt & HXp & HXe & HXd & HXc).
        exists rowX. rewrite Hrn. split; [exact HX|]. split; [exact HXt|]. split; [exact HXp|].
        destruct (Hev rowX HX) as [He' Hd']. rewrite He', Hd'. auto.
      * destruct Hview as [Heq Hev0]. rewrite Hrn. split; [exact Heq|].
        intros row0 H0. rewrite <- Heq in H0.
        destruct (Hev row0 H0) as [He' Hd']. rewrite Heq in H0.
        destruct (Hev0 row0 H0) as [He'' Hd'']. split; congruence.
Qed.

(** A batch persisted without database failure, on a store whose process
    ids are distinct (its primary key): afterwards, for every case number [n]
    borne by some result of the batch, the row of [n] carries the title and
    source path of the last result bearing [n], its events are exactly that
    result's events in order and its documents exactly that result's one
    document; if [n] already had a row, the id and creation time are that
    row's.  A case number borne by no result keeps its row, events and
    documents unchanged. *)
Theorem persist_batch_last_result_wins (utc : nat -> string) (rs : list import_result)
  (c : conn) (Hc : committed c = pending c) (Hid : ids_unique (committed c)) :
  exists c', persist_import_results utc (no_faults rs) c = (Ok tt, c') /\
  forall n,
    match last_result n rs with
    | Some r =>
        exists row, row_of n (committed c') = Some row /\ p_title row = ir_title r /\
          p_pdf_path row = path_str (ir_stored_dir r) (ir_stored_name r) /\
          events_of (p_id row) (committed c') = ir_events r /\
          documents_of (p_id row) (committed c') = [(ir_stored_name r, ir_document_text r)] /\
          (forall row0, row_of n (committed c) = Some row0 ->
             p_id row = p_id row0 /\ p_created_at row = p_created_at row0)
    | None =>
        row_of n (committed c') = row_of n (committed c) /\
        forall row0, row_of n (committed c) = Some row0 ->
          events_of (p_id row0) (committed c') = events_of (p_id row0) (committed c) /\
          documents_of (p_id row0) (committed c') = documents_of (p_id row0) (committed c)
    end.
Proof.
  destruct (persist_batch_view utc rs c Hc Hid) as (c' & Hrun & _ & _ & Hview).
  exists c'. split; [exact Hrun|]. exact Hview.
Qed.

Lemma upsert_length_existing (n title path t : string) (d : db) :
  row_of n d <> None ->
  length (processes (upsert_process n title path t d)) = length (processes d).
Proof.
  intros H. unfold upsert_process. destruct (existsb _ (processes d)) eqn:He.
  - apply length_map.
  - exfalso. apply H. apply existsb_find_none. exact He.
Qed.

Lemma row_of_upsert_kept (n m title path t : string) (d : db) :
  row_of n d <> None -> row_of n (upsert_process m title path t d) <> None.
Proof.
  intros H. destruct (String.eqb_spec n m) as [<-|Hnm].
  - rewrite row_of_upsert_same. discriminate.
  - rewrite row_of_upsert_other by exact Hnm. exact H.
Qed.

Lemma persist_batch_length (utc : nat -> string) (rs : list import_result) (c : conn) :
  committed c = pending c ->
  (forall r, In r rs -> row_of (ir_process_number r) (committed c) <> None) ->
  exists c', persist_import_results utc (no_faults rs) c = (Ok tt, c') /\
    length (processes (committed c')) = length (processes (committed c)).
Proof.
  revert c. induction rs as [|r rs IH]; intros c Hc Hrows.
  - exists c. auto.
  - destruct (persist_one_ok utc r c) as (pid & _ & Hrun). simpl.
    rewrite (bind_ok _ (fun _ => persist_import_results utc (no_faults rs)) _ _ _ Hrun).
    assert (Hkeep : forall n, row_of n (committed c) <> None ->
               row_of n (replaced_store utc r c pid) <> None).
    { intros n Hn. unfold row_of. rewrite replaced_store_processes. fold (row_of n
        (upsert_process (ir_process_number r) (ir_title r)
           (path_str (ir_stored_dir r) (ir_stored_name r)) (utc (clock c)) (pending c))).
      apply row_of_upsert_kept. rewrite <- Hc. exact Hn. }
    destruct (IH {| committed := replaced_store utc r c pid; pending := replaced_store utc r c pid; clock := S (S (clock c)) |} eq_refl) as (c' & Hrun' & Hlen).
    { intros r' Hr'. apply Hkeep, Hrows. right. exact Hr'. }
    exists c'. split; [exact Hrun'|]. rewrite Hlen. cbn [committed].
    rewrite replaced_store_processes, upsert_length_existing, Hc; [reflexivity|].
    rewrite <- Hc. apply Hrows. left. reflexivity.
Qed.

Lemma last_result_in (rs : list import_result) (r : import_result) :
  In r rs -> exists r', last_result (ir_process_number r) rs = Some r'.
Proof.
  intros Hin. unfold last_result.
  destruct (last (List.filter _ rs)) as [r'|] eqn:E; [eauto|].
  exfalso. apply last_None in E.
  assert (Hf : In r (List.filter (fun r0 => String.eqb (ir_process_number r0) (ir_process_number r)) rs)).
  { apply filter_In. split; [exact Hin|apply String.eqb_refl]. }
  rewrite E in Hf. exact Hf.
Qed.

Lemma row_of_number (n : string) (d : db) (row : process_row) :
  row_of n d = Some row -> p_number row = n.
Proof. unfold row_of. intros H. apply find_number in H as [_ H]. exact H. Qed.

(** Persisting the same batch a second time, without database failure,
    changes nothing a reader of the store can see: no process row is added,
    the row of every case number is the same (id, number, title, source path,
    creation time), and every such row has the same events and documents as
    after the first run. *)
Theorem persist_batch_idempotent (utc1 utc2 : nat -> string) (rs : list import_result)
  (c : conn) (Hc : committed c = pending c) (Hid : ids_unique (committed c)) :
  exists c1 c2,
    persist_import_results utc1 (no_faults rs) c = (Ok tt, c1) /\
    persist_import_results utc2 (no_faults rs) c1 = (Ok tt, c2) /\
    length (processes (committed c2)) = length (processes (committed c1)) /\
    forall n, row_of n (committed c2) = row_of n (committed c1) /\
      forall row, row_of n (committed c1) = Some row ->
        events_of (p_id row) (committed c2) = events_of (p_id row) (committed c1) /\
        documents_of (p_id row) (committed c2) = documents_of (p_id row) (committed c1).
Proof.
  destruct (persist_batch_view utc1 rs c Hc Hid) as (c1 & Hrun1 & Hc1 & Hid1 & Hview1).
  rewrite <- Hc1 in Hid1.
  destruct (persist_batch_view utc2 rs c1 Hc1 Hid1) as (c2 & Hrun2 & _ & _ & Hview2).
  exists c1, c2. split; [exact Hrun1|]. split; [exact Hrun2|].
  split.
  { destruct (persist_batch_length utc2 rs c1 Hc1) as (c2' & Hrun2' & Hlen).
    - intros r Hr. destruct (last_result_in rs r Hr) as [r' Hr'].
      specialize (Hview1 (ir_process_number r)). rewrite Hr' in Hview1.
      destruct Hview1 as (row & Hrow & _). rewrite Hrow. discriminate.
    - rewrite Hrun2 in Hrun2'. injection Hrun2' as <-. exact Hlen. }
  intros n. specialize (Hview1 n). specialize (Hview2 n).
  destruct (last_result n rs) as [r|].
  - destruct Hview1 as (row1 & H1 & Ht1 & Hp1 & He1 & Hd1 & _).
    destruct Hview2 as (row2 & H2 & Ht2 & Hp2 & He2 & Hd2 & Hc2).
    destruct (Hc2 row1 H1) as [Hi Hcr].
    assert (Hrow : row2 = row1).
    { pose proof (row_of_number _ _ _ H1) as Hn1. pose proof (row_of_number _ _ _ H2) as Hn2.
      destruct row1, row2; simpl in *; congruence. }
    subst row2. split; [congruence|].
    intros row H. rewrite H1 in H. injection H as <-. split; congruence.
  - exact Hview2.
Qed.

(** The import result [process_pdf] builds from the file [p]. *)
Definition result_from (E : env) (p : string) (r : import_result) : Prop :=
  ir_stored_name r = p /\ ir_stored_dir r = storage_dir_str E /\
  _parse_case_number (ir_document_text r) = Ok (ir_process_number r) /\
  ir_title r = _derive_title (ir_document_text r) /\
  ir_events r = _parse_events (ir_document_text r).

Lemma process_pdf_result (E : env) (p : string) (w w' : fs) (r : import_result) :
  process_pdf E p w = (Ok r, w') -> result_from E p r.
Proof.
  unfold process_pdf.
  destruct (extract_text_from_pdf _ _ _ _) as [[text|e] sc]; [|discriminate].
  destruct (_parse_case_number text) as [number|e] eqn:Hn; [|discriminate].
  intros H. injection H as <- _. unfold result_from. simpl. auto.
Qed.

Lemma load_loop_results (E : env) (paths : list string) (w w' : fs) (rs : list import_result) :
  load_loop E paths w = (Ok rs, w') -> List.Forall2 (result_from E) paths rs.
Proof.
  revert w w' rs. induction paths as [|p paths IH]; intros w w' rs; simpl.
  - intros H. injection H as <- _. constructor.
  - destruct (process_pdf E p w) as [[r|e] w1] eqn:Hp; [|discriminate].
    destruct (load_loop E paths w1) as [[rs'|e] w2] eqn:Hl; [|discriminate].
    intros H. injection H as <- _. constructor.
    + exact (process_pdf_result E p w w1 r Hp).
    + exact (IH w1 w2 rs' Hl).
Qed.

Lemma with_faults_none (E : env) (i : nat) (rs : list import_result) :
  (forall j, db_fault E j = None) -> with_faults E i rs = no_faults rs.
Proof.
  intros Hf. revert i. induction rs as [|r rs IH]; intros i; simpl; [reflexivity|].
  rewrite Hf, IH. reflexivity.
Qed.

(** A run of [build_database] in which every PDF is imported and no database
    statement fails: the [i]-th result comes from the [i]-th file of
    [_iter_pdf_files] (its stored name, and its case number, title and events
    parsed from its text), and in the database file afterwards every case
    number found carries the title, source path, events and document of the
    last file in that order bearing it; case numbers found in no file keep
    their row, events and documents.  (The store read at the start has
    distinct process ids, as its primary key ensures.) *)
Theorem build_database_last_file_wins (E : env) (w w1 : fs) (store : option db)
  (rs : list import_result)
  (Hnf : forall i, db_fault E i = None)
  (Hid : ids_unique (open_store store))
  (Hload : load_pdf_results E w = (Ok rs, w1)) :
  List.Forall2 (result_from E) (_iter_pdf_files (source w)) rs /\
  exists d, build_database E w store = (Ok tt, w1, Some d) /\
  forall n,
    match last_result n rs with
    | Some r =>
        exists row, row_of n d = Some row /\ p_title row = ir_title r /\
          p_pdf_path row = path_str (storage_dir_str E) (ir_stored_name r) /\
          events_of (p_id row) d = ir_events r /\
          documents_of (p_id row) d = [(ir_stored_name r, ir_document_text r)]
    | None =>
        row_of n d = row_of n (open_store store) /\
        forall row0, row_of n (open_store store) = Some row0 ->
          events_of (p_id row0) d = events_of (p_id row0) (open_store store) /\
          documents_of (p_id row0) d = documents_of (p_id row0) (open_store store)
    end.
Proof.
  split; [exact (load_loop_results _ _ _ _ _ Hload)|].
  set (c0 := {| committed := open_store store; pending := open_store store; clock := 0 |}).
  destruct (persist_batch_view (utcnow_at E) rs c0 eq_refl Hid) as (c' & Hrun & _ & _ & Hview).
  exists (committed c'). split.
  { unfold build_database. rewrite Hload, with_faults_none by exact Hnf.
    fold c0. rewrite Hrun. reflexivity. }
  intros n. specialize (Hview n).
  pose proof (load_loop_results _ _ _ _ _ Hload) as Hres.
  destruct (last_result n rs) as [r|] eqn:Hlast; [|exact Hview].
  destruct Hview as (row & H1 & H2 & H3 & H4 & H5 & _).
  exists row. repeat split; try assumption.
  assert (Hin : In r rs).
  { unfold last_result in Hlast. apply last_Some_elem_of in Hlast.
    apply list_elem_of_In, filter_In in Hlast. apply Hlast. }
  assert (Hdir : ir_stored_dir r = storage_dir_str E).
  { clear -Hres Hin. induction Hres as [|p r' ps rs' Hp _ IH]; [contradiction|].
    destruct Hin as [<-|Hin]; [apply Hp|exact (IH Hin)]. }
  rewrite <- Hdir. exact H3.
Qed.

(* ------------------------------------------------------------------ *)
(** ** Sample runs *)

(** A converter that writes a PDF's bytes as its text, a storage directory
    [pdfs], no database failure and a constant clock. *)
Definition sample_env : env :=
  {| tool := fun bytes => ToolExit 0 EmptyString (Some bytes);
     source_is_storage := false; storage_dir_str := "pdfs";
     db_fault := fun _ => None; utcnow_at := fun _ => "2024-01-01T00:00:00" |}.

(** Two PDFs of the same case and a PDF of another case. *)
Definition sample_fs : fs :=
  {| source := {[ "a.pdf" := EFile ("0000001-23.2024.8.26.0100" ++ String NL ("01/02/2024 - Distribu" ++ String "237" "do")%string);
                  "b.pdf" := EFile ("0000001-23.2024.8.26.0100" ++ String NL ("03/04/2024 - Senten" ++ String "231" "a")%string);
                  "c.pdf" := EFile ("0000002-23.2024.8.26.0100" ++ String NL ("05/06/2024 Cita" ++ String "231" (String "227" "o"))%string);
                  "notes.txt" := EFile "x" ]};
     storage := ∅; scratch := ∅ |}.

Lemma main_rejects_non_directory_witness :
  (None : option entry) <> Some EDir /\
  main sample_env "missing" None sample_fs None
  = (Raise (BuildDbError (INVALID_SOURCE "missing")), sample_fs, None) /\
  cli sample_env "missing" None sample_fs None
  = (CliExit 1 (error_payload (INVALID_SOURCE "missing") ++ [NL])%list, sample_fs, None).
Proof.
  assert (H : (None : option entry) <> Some EDir) by discriminate.
  split; [exact H|].
  exact (main_rejects_non_directory sample_env "missing" None sample_fs None H).
Defined.

Lemma persist_batch_last_result_wins_witness :
  committed empty_conn = pending empty_conn /\ ids_unique (committed empty_conn) /\
  exists c', persist_import_results (fun _ => "t") (no_faults [result_a; result_b]) empty_conn
             = (Ok tt, c') /\
  forall n,
    match last_result n [result_a; result_b] with
    | Some r =>
        exists row, row_of n (committed c') = Some row /\ p_title row = ir_title r /\
          p_pdf_path row = path_str (ir_stored_dir r) (ir_stored_name r) /\
          events_of (p_id row) (committed c') = ir_events r /\
          documents_of (p_id row) (committed c') = [(ir_stored_name r, ir_document_text r)] /\
          (forall row0, row_of n (committed empty_conn) = Some row0 ->
             p_id row = p_id row0 /\ p_created_at row = p_created_at row0)
    | None =>
        row_of n (committed c') = row_of n (committed empty_conn) /\
        forall row0, row_of n (committed empty_conn) = Some row0 ->
          events_of (p_id row0) (committed c') = events_of (p_id row0) (committed empty_conn) /\
          documents_of (p_id row0) (committed c') = documents_of (p_id row0) (committed empty_conn)
    end.
Proof.
  assert (H1 : committed empty_conn = pending empty_conn) by reflexivity.
  assert (H2 : ids_unique (committed empty_conn)) by constructor.
  split; [exact H1|]. split; [exact H2|].
  exact (persist_batch_last_result_wins (fun _ => "t") [result_a; result_b] empty_conn H1 H2).
Defined.

Lemma persist_batch_idempotent_witness :
  committed empty_conn = pending empty_conn /\ ids_unique (committed empty_conn) /\
  exists c1 c2,
    persist_import_results (fun _ => "t1") (no_faults [result_a; result_b]) empty_conn = (Ok tt, c1) /\
    persist_import_results (fun _ => "t2") (no_faults [result_a; result_b]) c1 = (Ok tt, c2) /\
    length (processes (committed c2)) = length (processes (committed c1)) /\
    forall n, row_of n (committed c2) = row_of n (committed c1) /\
      forall row, row_of n (committed c1) = Some row ->
        events_of (p_id row) (committed c2) = events_of (p_id row) (committed c1) /\
        documents_of (p_id row) (committed c2) = documents_of (p_id row) (committed c1).
Proof.
  assert (H1 : committed empty_conn = pending empty_conn) by reflexivity.
  assert (H2 : ids_unique (committed empty_conn)) by constructor.
  split; [exact H1|]. split; [exact H2|].
  exact (persist_batch_idempotent (fun _ => "t1") (fun _ => "t2") [result_a; result_b]
           empty_conn H1 H2).
Defined.

Lemma build_database_last_file_wins_witness :
  exists rs w1, load_pdf_results sample_env sample_fs = (Ok rs, w1) /\
  List.Forall2 (result_from sample_env) (_iter_pdf_files (source sample_fs)) rs /\
  exists d, build_database sample_env sample_fs None = (Ok tt, w1, Some d) /\
  forall n,
    match last_result n rs with
    | Some r =>
        exists row, row_of n d = Some row /\ p_title row = ir_title r /\
          p_pdf_path row = path_str (storage_dir_str sample_env) (ir_stored_name r) /\
          events_of (p_id row) d = ir_events r /\
          documents_of (p_id row) d = [(ir_stored_name r, ir_document_text r)]
    | None =>
        row_of n d = row_of n (open_store None) /\
        forall row0, row_of n (open_store None) = Some row0 ->
          events_of (p_id row0) d = events_of (p_id row0) (open_store None) /\
          documents_of (p_id row0) d = documents_of (p_id row0) (open_store None)
    end.
Proof.
  destruct (load_pdf_results sample_env sample_fs) as [[rs|e] w1] eqn:Hload.
  - exists rs, w1. split; [reflexivity|].
    assert (Hnf : forall i, db_fault sample_env i = None) by reflexivity.
    assert (Hid : ids_unique (open_store None)) by constructor.
    exact (build_database_last_file_wins sample_env sample_fs w1 None rs Hnf Hid Hload).
  - exfalso. vm_compute in Hload. discriminate Hload.
Defined.

(* ------------------------------------------------------------------ *)
(** ** Scratch files of [process_pdf] *)

(** The scratch text file of a PDF: [temp_dir / f"{pdf_path.stem}.txt"]. *)
Definition scratch_name (p : string) : string := stem p ++ ".txt".

Lemma list_ascii_of_string_append (a b : string) :
  list_ascii_of_string (a ++ b) = (list_ascii_of_string a ++ list_ascii_of_string b)%list.
Proof. induction a as [|c a IH]; simpl; [reflexivity|]. rewrite IH. reflexivity. Qed.

Lemma last_dot_pdf (l : list ascii) (i : nat) (acc : option nat) :
  last_dot (l ++ list_ascii_of_string ".pdf")%list i acc = Some (i + length l).
Proof.
  revert i acc. induction l as [|c l IH]; intros i acc; simpl.
  - rewrite Nat.add_0_r. reflexivity.
  - rewrite IH. f_equal. lia.
Qed.

(** The scratch file of [<base>.pdf] is [<base>.txt] for a non-empty
    [base]; the file named [.pdf] alone has stem [.pdf], so its scratch file
    is [.pdf.txt]. *)
Theorem scratch_name_pdf (base : string) (Hb : base <> EmptyString) :
  scratch_name (base ++ ".pdf") = (base ++ ".txt")%string /\
  scratch_name ".pdf" = ".pdf.txt".
Proof.
  split; [|reflexivity].
  unfold scratch_name, stem.
  cbv zeta. rewrite list_ascii_of_string_append, last_dot_pdf. simpl.
  assert (Hl : 0 < length (list_ascii_of_string base)).
  { destruct base; [contradiction|simpl; lia]. }
  rewrite length_app. simpl.
  replace (0 <? length (list_ascii_of_string base)) with true by (symmetry; apply Nat.ltb_lt; exact Hl).
  replace (length (list_ascii_of_string base) <? length (list_ascii_of_string base) + 4 - 1)
    with true by (symmetry; apply Nat.ltb_lt; lia).
  simpl. rewrite take_app_length, string_of_list_ascii_of_string. reflexivity.
Qed.

Lemma scratch_name_pdf_witness :
  ("a" : string) <> EmptyString /\
  scratch_name ("a" ++ ".pdf") = ("a" ++ ".txt")%string /\ scratch_name ".pdf" = ".pdf.txt".
Proof.
  assert (H : ("a" : string) <> EmptyString) by discriminate.
  split; [exact H|]. exact (scratch_name_pdf "a" H).
Defined.

Lemma process_pdf_stored_bytes (E : env) (p : string) (w : fs) :
  (if source_is_storage E then src_bytes w p
   else match storage (if source_is_storage E then w
                       else with_storage w (<[p:=src_bytes w p]> (storage w))) !! p with
        | Some b => b | None => src_bytes w p end) = src_bytes w p.
Proof. destruct (source_is_storage E); [reflexivity|]. simpl. rewrite lookup_insert_eq. reflexivity. Qed.

(** When [pdftotext] exits with status 0 without writing the destination,
    [process_pdf] reads whatever scratch file [<stem>.txt] is already there,
    for instance one left by an earlier failed run, and imports that text as
    the document's: its case number, title and events are parsed from it.
    The scratch file is deleted afterwards. *)
Theorem process_pdf_reads_leftover_scratch (E : env) (p : string) (w : fs)
  (err old : string)
  (Htool : tool E (src_bytes w p) = ToolExit 0 err None)
  (Hold : scratch w !! scratch_name p = Some old) :
  (process_pdf E p w).1
  = match _parse_case_number old with
    | Ok number =>
        Ok {| ir_process_number := number; ir_title := _derive_title old;
              ir_events := _parse_events old; ir_document_text := old;
              ir_stored_dir := storage_dir_str E; ir_stored_name := p |}
    | Raise e => Raise e
    end /\
  scratch (process_pdf E p w).2 = delete (scratch_name p) (scratch w).
Proof.
  unfold process_pdf. rewrite process_pdf_stored_bytes, Htool.
  unfold scratch_name in Hold.
  assert (Hsc : scratch (if source_is_storage E then w
                         else with_storage w (<[p:=src_bytes w p]> (storage w))) = scratch w)
    by (destruct (source_is_storage E); reflexivity).
  cbn [extract_text_from_pdf Z.eqb]. rewrite Hsc, Hold.
  destruct (_parse_case_number old); split; try reflexivity;
    simpl; destruct (source_is_storage E); reflexivity.
Qed.

(** A converter that exits with status 0 without writing anything, and a
    scratch file [a.txt] left over from an earlier run. *)
Definition silent_env : env :=
  {| tool := fun _ => ToolExit 0 EmptyString None;
     source_is_storage := false; storage_dir_str := "pdfs";
     db_fault := fun _ => None; utcnow_at := fun _ => "2024-01-01T00:00:00" |}.

Definition leftover_text : string :=
  "0000002-23.2024.8.26.0100" ++ String NL ("05/06/2024 Cita" ++ String "231" (String "227" "o")).

Definition leftover_fs : fs :=
  {| source := {[ "a.pdf" := EFile "%PDF" ]};
     storage := ∅;
     scratch := {[ "a.txt" := leftover_text ]} |}.

Lemma process_pdf_reads_leftover_scratch_witness :
  tool silent_env (src_bytes leftover_fs "a.pdf") = ToolExit 0 EmptyString None /\
  scratch leftover_fs !! scratch_name "a.pdf"
  = Some leftover_text /\
  (process_pdf silent_env "a.pdf" leftover_fs).1
  = match _parse_case_number leftover_text with
    | Ok number =>
        Ok {| ir_process_number := number;
              ir_title := _derive_title leftover_text;
              ir_events := _parse_events leftover_text;
              ir_document_text := leftover_text;
              ir_stored_dir := storage_dir_str silent_env; ir_stored_name := "a.pdf" |}
    | Raise e => Raise e
    end /\
  scratch (process_pdf silent_env "a.pdf" leftover_fs).2
  = delete (scratch_name "a.pdf") (scratch leftover_fs).
Proof.
  assert (H1 : tool silent_env (src_bytes leftover_fs "a.pdf") = ToolExit 0 EmptyString None)
    by reflexivity.
  assert (H2 : scratch leftover_fs !! scratch_name "a.pdf"
               = Some leftover_text)
    by reflexivity.
  split; [exact H1|]. split; [exact H2|].
  exact (process_pdf_reads_leftover_scratch silent_env "a.pdf" leftover_fs EmptyString _ H1 H2).
Defined.
